(** * examples/math_st.c: MYLOG and MYPRINTF

    A shallow embedding of the two C functions of [examples/math_st.c]
    together with the parts of the C library they call ([printf] on
    [stdout], [log10], the conversions between [int] and [double]).

    - The parameter blocks are passed by pointer, so the functions run in
      a state monad over a [world]: a heap of parameter blocks and the
      [stdout] stream.
    - A call whose behaviour ISO C leaves undefined yields [Undefined].
    - [printf] is modelled for ordinary characters and the conversion
      specifications [%%], [%d], [%i], [%c] and [%n] written without
      flags, width, precision or length modifier; any other specification
      yields [Unmodelled], about which nothing is stated.
    - [double] is binary64, as [spec_float]; [log10] is the platform's
      libm and is a section variable. *)

From Stdlib Require Import ZArith List String Ascii Bool Lia.
From Stdlib Require Import Decimal DecimalString DecimalZ.
From Stdlib Require Import SpecFloat.
From Stdlib Require Import Reals Lra.
From stdpp Require Import base gmap.

Local Open Scope string_scope.
Local Open Scope Z_scope.

#[local] Arguments String.append : simpl nomatch.

(** ** Outcomes of a C call *)

Inductive outcome (A : Type) : Type :=
  | Returns (a : A)
  | Undefined
  | Unmodelled.

Arguments Returns {A} a.
Arguments Undefined {A}.
Arguments Unmodelled {A}.

Definition outcome_bind {A B} (o : outcome A) (k : A -> outcome B) : outcome B :=
  match o with
  | Returns a => k a
  | Undefined => Undefined
  | Unmodelled => Unmodelled
  end.

Definition outcome_map {A B} (f : A -> B) (o : outcome A) : outcome B :=
  outcome_bind o (fun a => Returns (f a)).

(** ** The [int] type and the standard output stream *)

Definition INT_MIN : Z := - 2 ^ 31.
Definition INT_MAX : Z := 2 ^ 31 - 1.

Definition int_range (v : Z) : Prop := INT_MIN <= v <= INT_MAX.

Definition in_int_range (v : Z) : bool := (INT_MIN <=? v) && (v <=? INT_MAX).

(** The value [printf] returns after an output error ("a negative value",
    ISO C 7.21.6.3; [-1] in glibc and musl). *)
Definition EOF : Z := -1.

(** [sent] is every character the stream has taken so far, into its buffer
    or onto its device.  [writable = false] stands for a stream that takes
    no character: an unbuffered stream whose device refuses output (closed
    descriptor, full disk).  A stream that still buffers what it is given
    takes it whatever its device does later, and is [writable].  The
    status of the stream does not change during the calls modelled. *)
Record FILE : Type := mkFILE {
  sent : string;
  writable : bool
}.

(** Writing [txt]: a stream that takes characters takes them all; one that
    takes none reports an output error at the first character, so writing
    no character at all succeeds on it. *)
Definition transmit (txt : string) (f : FILE) : Z * FILE :=
  if writable f
  then (Z.of_nat (String.length txt), mkFILE (sent f ++ txt)%string true)
  else match txt with
       | EmptyString => (0, f)
       | String _ _ => (EOF, f)
       end.

(** ** Formatting *)

Definition nl : string := String "010"%char EmptyString.

(** What [%d] writes for an [int]: optional minus sign, decimal digits, no
    leading zeros. *)
Definition decimal (v : Z) : string := NilZero.string_of_int (Z.to_int v).

Definition read_decimal (s : string) : option Z :=
  option_map Z.of_int (NilZero.int_of_string s).

Definition is_signed_int_conversion (c : ascii) : bool :=
  (Ascii.eqb c "d"%char) || (Ascii.eqb c "i"%char).

(** What [%c] writes for an [int]: the argument converted to
    [unsigned char] (7.21.6.1p8). *)
Definition char_of_int (v : Z) : ascii := ascii_of_N (Z.to_N (v mod 256)).

(** Expansion of a format when every variable argument is an [int], as
    in all the calls of [MYLOG] and [MYPRINTF].  Arguments left over when
    the format is exhausted are ignored (7.21.6.1p2); a conversion that
    finds no argument, a [%n] that finds an [int] where it needs a pointer,
    or a format that ends inside a conversion specification, is undefined
    (7.21.6.1p2, p9). *)
Fixpoint format (fmt : string) (args : list Z) : outcome string :=
  match fmt with
  | EmptyString => Returns EmptyString
  | String c rest =>
      if Ascii.eqb c "%"%char then
        match rest with
        | EmptyString => Undefined
        | String d rest' =>
            if Ascii.eqb d "%"%char then
              outcome_map (String "%"%char) (format rest' args)
            else if is_signed_int_conversion d then
              match args with
              | nil => Undefined
              | v :: args' =>
                  outcome_map (String.append (decimal v)) (format rest' args')
              end
            else if Ascii.eqb d "c"%char then
              match args with
              | nil => Undefined
              | v :: args' =>
                  outcome_map (String (char_of_int v)) (format rest' args')
              end
            else if Ascii.eqb d "n"%char then Undefined
            else Unmodelled
        end
      else outcome_map (String c) (format rest args)
  end.

(** ** The world: parameter blocks behind pointers, and [stdout] *)

Record MYLOG_interface : Type := mkMYLOG_interface {
  x : Z
}.

(** [text] is the [char text[81]] array, one [ascii] per element. *)
Record MYPRINTF_interface : Type := mkMYPRINTF_interface {
  text : list ascii;
  value : Z
}.

Definition TEXT_CAPACITY : nat := 81.

Definition MYPRINTF_interface_wf (p : MYPRINTF_interface) : Prop :=
  List.length (text p) = TEXT_CAPACITY /\ int_range (value p).

Inductive object : Type :=
  | LogBlock (o : MYLOG_interface)
  | PrintfBlock (o : MYPRINTF_interface).

Definition ptr : Type := positive.

Record world : Type := mkWorld {
  heap : gmap ptr object;
  stdout : FILE
}.

(** State and outcome monad of the C functions. *)
Definition M (A : Type) : Type := world -> outcome (A * world).

Definition ret {A} (a : A) : M A := fun w => Returns (a, w).

Definition bind {A B} (m : M A) (k : A -> M B) : M B :=
  fun w => outcome_bind (m w) (fun aw => k (fst aw) (snd aw)).

Definition lift {A} (o : outcome A) : M A :=
  fun w => outcome_map (fun a => (a, w)) o.

Notation "'do' v <- m ; k" := (bind m (fun v => k))
  (at level 10, v name, m at level 100, k at level 200).

(** Dereferencing a parameter pointer; a pointer that does not point to a
    block of the expected structure type is undefined. *)
Definition deref_MYLOG (param : ptr) : M MYLOG_interface :=
  fun w =>
    match heap w !! param with
    | Some (LogBlock o) => Returns (o, w)
    | _ => Undefined
    end.

Definition deref_MYPRINTF (param : ptr) : M MYPRINTF_interface :=
  fun w =>
    match heap w !! param with
    | Some (PrintfBlock o) => Returns (o, w)
    | _ => Undefined
    end.

(** A variable argument of [printf]: an [int], or a pointer to an [int].
    A pointer to a [MYLOG_interface] block is also a pointer to its member
    [x], the [int] the block starts with. *)
Inductive arg : Type :=
  | Int (v : Z)
  | Pointer (p : ptr).

Definition with_text (s : string) (r : string * list (ptr * Z))
  : string * list (ptr * Z) := ((s ++ fst r)%string, snd r).

Definition with_store (p : ptr) (n : Z) (r : string * list (ptr * Z))
  : string * list (ptr * Z) := (fst r, (p, n) :: snd r).

(** Expansion of a format against arguments of either kind: the text to
    write, and what each [%n] stores (the number of characters written so
    far, 7.21.6.1p8) through its pointer.  [count] is the number of
    characters already written.  An argument of the wrong kind is
    undefined (7.21.6.1p9). *)
Fixpoint expand (fmt : string) (args : list arg) (count : nat)
  : outcome (string * list (ptr * Z)) :=
  match fmt with
  | EmptyString => Returns (EmptyString, nil)
  | String c rest =>
      if Ascii.eqb c "%"%char then
        match rest with
        | EmptyString => Undefined
        | String d rest' =>
            if Ascii.eqb d "%"%char then
              outcome_map (with_text "%") (expand rest' args (S count))
            else if is_signed_int_conversion d then
              match args with
              | Int v :: args' =>
                  outcome_map (with_text (decimal v))
                    (expand rest' args'
                       (count + String.length (decimal v)))
              | _ => Undefined
              end
            else if Ascii.eqb d "c"%char then
              match args with
              | Int v :: args' =>
                  outcome_map
                    (with_text (String (char_of_int v) EmptyString))
                    (expand rest' args' (S count))
              | _ => Undefined
              end
            else if Ascii.eqb d "n"%char then
              match args with
              | Pointer p :: args' =>
                  outcome_map (with_store p (Z.of_nat count))
                    (expand rest' args' count)
              | _ => Undefined
              end
            else Unmodelled
        end
      else
        outcome_map (with_text (String c EmptyString))
          (expand rest args (S count))
  end.

(** Performing the stores of the [%n] directives; a pointer that does not
    point to an [int] is undefined. *)
Fixpoint store_all (stores : list (ptr * Z)) (h : gmap ptr object)
  : outcome (gmap ptr object) :=
  match stores with
  | nil => Returns h
  | (p, n) :: stores' =>
      match h !! p with
      | Some (LogBlock _) =>
          store_all stores' (<[ p := LogBlock (mkMYLOG_interface n) ]> h)
      | _ => Undefined
      end
  end.

(** [printf]: expand, perform the stores, write the text to [stdout];
    returns the number of characters written, or [EOF] after an output
    error. *)
Definition printf (fmt : string) (args : list arg) : M Z :=
  fun w =>
    outcome_bind (expand fmt args O) (fun ts =>
      outcome_bind (store_all (snd ts) (heap w)) (fun h =>
        let (n, f) := transmit (fst ts) (stdout w) in
        Returns (n, mkWorld h f))).

(** The string a [char] array holds: the characters before the first null
    character.  An array without one is not a string, and reading it as a
    format runs past its end. *)
Fixpoint c_string (buf : list ascii) : option string :=
  match buf with
  | nil => None
  | c :: buf' =>
      if Ascii.eqb c "000"%char then Some EmptyString
      else option_map (String c) (c_string buf')
  end.

Definition string_of_array (buf : list ascii) : outcome string :=
  match c_string buf with
  | Some s => Returns s
  | None => Undefined
  end.

(** Filling a [char text[81]]: the characters of [s], then null characters
    up to the capacity. *)
Definition text_of_string (s : string) : list ascii :=
  let l := list_ascii_of_string s in
  (l ++ List.repeat "000"%char (TEXT_CAPACITY - List.length l)%nat)%list.

(** ** [int] and [double] *)

Definition double : Type := spec_float.

(** The implicit conversion of the [int] argument of [log10]. *)
Definition double_of_int (v : Z) : double := binary_normalize 53 1024 v 0 false.

(** Integral part of a finite [double], rounding toward zero. *)
Definition truncate (d : double) : option Z :=
  match d with
  | S754_zero _ => Some 0
  | S754_finite s m e =>
      let a := if 0 <=? e then Z.pos m * 2 ^ e else Z.pos m / 2 ^ (- e) in
      Some (if s then - a else a)
  | _ => None
  end.

Section Platform.

(** libm's [log10]. *)
Variable log10 : double -> double.

(** The value a conversion to [int] produces when its operand is a NaN,
    an infinity, or has an integral part outside [int] (ISO C Annex F.4:
    the "invalid" exception is raised and the value is unspecified). *)
Variable invalid_int : double -> Z.

(** The cast [(int) d]. *)
Definition int_of_double (d : double) : Z :=
  match truncate d with
  | Some v => if in_int_range v then v else invalid_int d
  | None => invalid_int d
  end.

Definition MYLOG (param : ptr) : M Z :=
  do p <- deref_MYLOG param;
  do n1 <- printf ("Calling log with %d" ++ nl)%string (Int (x p) :: nil);
  let res := int_of_double (log10 (double_of_int (x p))) in
  do n2 <- printf ("result :  %d" ++ nl)%string (Int res :: nil);
  ret res.

(** The value [MYLOG] computes from the operand [v], and the two lines it
    prints. *)
Definition log_result (v : Z) : Z :=
  int_of_double (log10 (double_of_int v)).

Definition log_trace (v : Z) : string :=
  (("Calling log with " ++ decimal v ++ nl) ++
   ("result :  " ++ decimal (log_result v) ++ nl))%string.

End Platform.

Definition MYPRINTF (param : ptr) : M Z :=
  do p <- deref_MYPRINTF param;
  do fmt <- lift (string_of_array (text p));
  printf fmt (Int (value p) :: nil).

(** ** Vocabulary of the properties *)

(** Number of occurrences of a character in a string. *)
Fixpoint occurrences (c : ascii) (s : string) : nat :=
  match s with
  | EmptyString => O
  | String a s' => ((if Ascii.eqb a c then 1 else 0) + occurrences c s')%nat
  end.

(** Whether a format is made of ordinary characters, [%%] and at most [n]
    conversions [%d] or [%i]: the formats [format] expands when given [n]
    arguments. *)
Fixpoint template_ok (fmt : string) (n : nat) : bool :=
  match fmt with
  | EmptyString => true
  | String c rest =>
      if Ascii.eqb c "%"%char then
        match rest with
        | EmptyString => false
        | String d rest' =>
            if Ascii.eqb d "%"%char then template_ok rest' n
            else if is_signed_int_conversion d then
              match n with
              | O => false
              | S n' => template_ok rest' n'
              end
            else false
        end
      else template_ok rest n
  end.

(** [w'] is [w] after [txt] has been transmitted to [stdout]: nothing else
    differs. *)
Definition appended (w w' : world) (txt : string) : Prop :=
  heap w' = heap w /\
  writable (stdout w') = writable (stdout w) /\
  sent (stdout w') = (sent (stdout w) ++ txt)%string.


(** A call made in [w], and made again in the state it leaves, returns the
    same value and writes the same text both times. *)
Definition repeats (m : M Z) (w : world) : Prop :=
  exists r txt w1 w2,
    m w = Returns (r, w1) /\ appended w w1 txt /\
    m w1 = Returns (r, w2) /\ appended w1 w2 txt.


(** ** Real value of a [double], and what is asked of libm *)

Definition is_finite (d : double) : bool :=
  match d with
  | S754_zero _ | S754_finite _ _ _ => true
  | _ => false
  end.

Definition SF2R (d : double) : R :=
  match d with
  | S754_finite s m e =>
      ((if s then -1 else 1) * IZR (Z.pos m) *
       (if 0 <=? e then IZR (2 ^ e) else / IZR (2 ^ (- e))))%R
  | _ => 0%R
  end.

(** The base-10 logarithm of a real number. *)
Definition log10R (r : R) : R := (ln r / ln 10)%R.

(** The answer of a libm [log10] at [d] is faithful: finite, within
    [2^-40] of the logarithm, and exact when the logarithm is an integer
    (as at the powers of ten).  ISO C sets no bound on the error of
    [log10]; this is what the libm has to provide for the cast in [MYLOG]
    to land on the right integer. *)
Definition faithful_at (log10 : double -> double) (d : double) : Prop :=
  is_finite (log10 d) = true /\
  (forall n : Z, log10R (SF2R d) = IZR n -> SF2R (log10 d) = IZR n) /\
  (Rabs (SF2R (log10 d) - log10R (SF2R d)) <= / IZR (2 ^ 40))%R.

(** ISO C Annex F.10.3.8 on the arguments that have no logarithm:
    [log10(+-0)] is minus infinity, [log10] of a negative number is a
    NaN. *)
Definition annex_F (log10 : double -> double) : Prop :=
  (forall s, log10 (S754_zero s) = S754_infinity true) /\
  (forall m e, log10 (S754_finite true m e) = S754_nan) /\
  log10 (S754_infinity true) = S754_nan.

(** ** A sample platform, to run the functions on *)

(** A coarse [log10]: Annex F on the special values, exact at the powers
    of ten, and rounded down to an integer at every other [d >= 1]. *)
Definition log10_sample (d : double) : double :=
  match d with
  | S754_zero _ => S754_infinity true
  | S754_infinity false => S754_infinity false
  | S754_finite false _ _ =>
      match truncate d with
      | Some v => double_of_int (Z.of_nat (String.length (decimal v)) - 1)
      | None => S754_nan
      end
  | _ => S754_nan
  end.

(** What x86 stores on an invalid conversion to a 32-bit integer. *)
Definition invalid_int_x86 (d : double) : Z := INT_MIN.

Definition stdout0 : FILE := mkFILE EmptyString true.

(** A world holding one parameter block, at address [1]. *)
Definition world_of (o : object) (f : FILE) : world :=
  mkWorld {[ 1%positive := o ]} f.

Definition log_block (v : Z) : object := LogBlock (mkMYLOG_interface v).

Definition printf_block (s : string) (v : Z) : object :=
  PrintfBlock (mkMYPRINTF_interface (text_of_string s) v).


(** What a caller observes of a call: the value returned and the stream. *)
Definition observable (o : outcome (Z * world)) : outcome (Z * FILE) :=
  outcome_map (fun rw => (fst rw, stdout (snd rw))) o.

(** A character array that holds the string [s]: its characters, the
    terminating null character, then the elements [rest]. *)
Definition array_holding (s : string) (rest : list ascii) : list ascii :=
  (list_ascii_of_string s ++ "000"%char :: rest)%list.

(** * Properties *)

(** ** Strings and decimal numerals *)

Lemma occurrences_append (c : ascii) (s t : string) :
  occurrences c (s ++ t) = (occurrences c s + occurrences c t)%nat.
Proof.
  induction s as [|a s IH]; simpl; [reflexivity|].
  rewrite IH. lia.
Qed.

Lemma append_assoc (s t u : string) : ((s ++ t) ++ u = s ++ (t ++ u))%string.
Proof.
  induction s as [|a s IH]; simpl; [reflexivity|]. now rewrite IH.
Qed.

Lemma append_nil_r (s : string) : (s ++ "")%string = s.
Proof.
  induction s as [|a s IH]; simpl; [reflexivity|]. now rewrite IH.
Qed.

Lemma append_inv_head (s t u : string) : (s ++ t = s ++ u)%string -> t = u.
Proof.
  induction s as [|a s IH]; simpl; intros H; [exact H|].
  injection H as H. auto.
Qed.

Lemma uint_no_newline (d : uint) :
  occurrences "010"%char (NilEmpty.string_of_uint d) = O.
Proof.
  induction d; simpl; auto.
Qed.

Lemma decimal_no_newline (v : Z) : occurrences "010"%char (decimal v) = O.
Proof.
  unfold decimal.
  destruct (Z.to_int v) as [d|d]; simpl; destruct d; simpl;
    auto using uint_no_newline.
Qed.

Lemma to_uint_not_nil (p : positive) : Pos.to_uint p <> Nil.
Proof.
  intros H.
  pose proof (DecimalPos.Unsigned.of_to p) as E.
  rewrite H in E. discriminate E.
Qed.

(** The numeral [%d] writes denotes the integer it was given. *)
Lemma read_decimal_decimal (v : Z) : read_decimal (decimal v) = Some v.
Proof.
  unfold read_decimal, decimal.
  rewrite NilZero.isi.
  - simpl. now rewrite DecimalZ.of_to.
  - destruct v; simpl; try discriminate.
    intros [= H]. now apply to_uint_not_nil in H.
  - destruct v; simpl; try discriminate.
    intros [= H]. now apply to_uint_not_nil in H.
Qed.

Lemma decimal_inj (u v : Z) : decimal u = decimal v -> u = v.
Proof.
  intros H.
  assert (E : Some u = Some v)
    by (rewrite <- (read_decimal_decimal u), <- (read_decimal_decimal v);
        now rewrite H).
  now injection E.
Qed.

(** ** [format] *)

(** Induction on a format two characters at a time, as [format] reads it. *)
Lemma format_ind (P : string -> Prop) :
  P EmptyString ->
  (forall c, P (String c EmptyString)) ->
  (forall c d s, P s -> P (String d s) -> P (String c (String d s))) ->
  forall s, P s.
Proof.
  intros H0 H1 H2 s.
  assert (H : P s /\ forall c, P (String c s)).
  { induction s as [|d s [IHa IHb]]; split; auto. }
  apply H.
Qed.

Lemma format_cons (c : ascii) (rest : string) (args : list Z) :
  format (String c rest) args =
  if Ascii.eqb c "%"%char then
    match rest with
    | EmptyString => Undefined
    | String d rest' =>
        if Ascii.eqb d "%"%char then
          outcome_map (String "%"%char) (format rest' args)
        else if is_signed_int_conversion d then
          match args with
          | nil => Undefined
          | v :: args' =>
              outcome_map (String.append (decimal v)) (format rest' args')
          end
        else if Ascii.eqb d "c"%char then
          match args with
          | nil => Undefined
          | v :: args' =>
              outcome_map (String (char_of_int v)) (format rest' args')
          end
        else if Ascii.eqb d "n"%char then Undefined
        else Unmodelled
    end
  else outcome_map (String c) (format rest args).
Proof. destruct rest; reflexivity. Qed.

Lemma template_ok_cons (c : ascii) (rest : string) (n : nat) :
  template_ok (String c rest) n =
  if Ascii.eqb c "%"%char then
    match rest with
    | EmptyString => false
    | String d rest' =>
        if Ascii.eqb d "%"%char then template_ok rest' n
        else if is_signed_int_conversion d then
          match n with
          | O => false
          | S n' => template_ok rest' n'
          end
        else false
    end
  else template_ok rest n.
Proof. destruct rest; reflexivity. Qed.

Lemma format_defined (fmt : string) :
  forall args, template_ok fmt (List.length args) = true ->
               exists txt, format fmt args = Returns txt.
Proof.
  induction fmt as [|c|c d s IHs IHd] using format_ind; intros args.
  - simpl. eauto.
  - simpl. destruct (Ascii.eqb c "%"); [discriminate|]. eauto.
  - rewrite template_ok_cons, format_cons.
    destruct (Ascii.eqb c "%").
    + destruct (Ascii.eqb d "%").
      * intros H. destruct (IHs _ H) as [txt ->]. simpl. eauto.
      * destruct (is_signed_int_conversion d); [|discriminate].
        destruct args as [|v args]; [discriminate|]. simpl List.length.
        intros H. destruct (IHs _ H) as [txt ->]. simpl. eauto.
    + intros H. destruct (IHd _ H) as [txt ->]. simpl. eauto.
Qed.


(** A format without [%] is written as it is, whatever the arguments. *)
Lemma format_verbatim (fmt : string) (args : list Z) :
  occurrences "%"%char fmt = O -> format fmt args = Returns fmt.
Proof.
  induction fmt as [|c s IH]; [reflexivity|].
  intros H. simpl in H.
  destruct (Ascii.eqb c "%") eqn:E; [discriminate|].
  apply IH in H. clear IH.
  destruct s as [|d s]; simpl; rewrite E; [reflexivity|].
  simpl in H. now rewrite H.
Qed.

(** A format that takes no argument expands the same whatever is passed;
    its expansion is shorter than the format by one character for each
    pair [%%]. *)
Lemma format_no_argument (fmt : string) :
  template_ok fmt 0 = true ->
  exists txt,
    (forall args, format fmt args = Returns txt) /\
    (2 * String.length txt + occurrences "%"%char fmt
     = 2 * String.length fmt)%nat.
Proof.
  induction fmt as [|c|c d s IHs IHd] using format_ind.
  - intros _. exists EmptyString. split; reflexivity.
  - simpl. destruct (Ascii.eqb c "%") eqn:E; [discriminate|]. intros _.
    exists (String c EmptyString). split; [reflexivity|]. simpl. lia.
  - rewrite template_ok_cons.
    destruct (Ascii.eqb_spec c "%") as [->|Hc].
    + destruct (Ascii.eqb_spec d "%") as [->|Hd].
      * intros H. destruct (IHs H) as (txt & Hf & Hl).
        exists (String "%"%char txt). split.
        -- intros args. rewrite format_cons. simpl. now rewrite Hf.
        -- simpl. simpl in Hl. lia.
      * destruct (is_signed_int_conversion d); discriminate.
    + intros H. destruct (IHd H) as (txt & Hf & Hl).
      exists (String c txt). split.
      * intros args. rewrite format_cons.
        destruct (Ascii.eqb_spec c "%"); [contradiction|]. now rewrite Hf.
      * change (occurrences "%" (String c (String d s))) with
          ((if Ascii.eqb c "%" then 1 else 0)
           + occurrences "%" (String d s))%nat.
        destruct (Ascii.eqb_spec c "%"); [contradiction|].
        simpl String.length in *. lia.
Qed.

(** A format that needs more arguments than it is given is undefined. *)
Lemma format_runs_out (fmt : string) :
  forall n args,
    template_ok fmt n = true ->
    template_ok fmt (List.length args) = false ->
    format fmt args = Undefined.
Proof.
  induction fmt as [|c|c d s IHs IHd] using format_ind; intros n args.
  - discriminate.
  - simpl. destruct (Ascii.eqb c "%"); discriminate.
  - rewrite !template_ok_cons, format_cons.
    destruct (Ascii.eqb c "%").
    + destruct (Ascii.eqb d "%").
      * intros Hn Ha. now rewrite (IHs n args Hn Ha).
      * destruct (is_signed_int_conversion d); [|discriminate].
        destruct n as [|n]; [discriminate|].
        destruct args as [|v args]; [reflexivity|]. simpl List.length.
        intros Hn Ha. now rewrite (IHs n args Hn Ha).
    + intros Hn Ha. now rewrite (IHd n args Hn Ha).
Qed.

(** ** Character arrays *)

Lemma c_string_length (buf : list ascii) :
  forall s, c_string buf = Some s ->
            (String.length s < List.length buf)%nat.
Proof.
  induction buf as [|c buf IH]; simpl; intros s; [discriminate|].
  destruct (Ascii.eqb c "000").
  - intros [= <-]. simpl. lia.
  - destruct (c_string buf) as [t|]; simpl; [|discriminate].
    intros [= <-]. simpl. specialize (IH t eq_refl). lia.
Qed.

(** ** Running [printf] and [MYPRINTF] *)

(** With [int] arguments only, [expand] is [format] and stores nothing. *)
Lemma expand_ints (fmt : string) :
  forall args count,
    expand fmt (List.map Int args) count =
    outcome_map (fun txt => (txt, nil)) (format fmt args).
Proof.
  induction fmt as [|c|c d s IHs IHd] using format_ind; intros args count.
  - reflexivity.
  - simpl. destruct (Ascii.eqb c "%"); reflexivity.
  - rewrite format_cons.
    change (expand (String c (String d s)) (List.map Int args) count) with
      (if Ascii.eqb c "%"%char then
         if Ascii.eqb d "%"%char then
           outcome_map (with_text "%")
             (expand s (List.map Int args) (S count))
         else if is_signed_int_conversion d then
           match List.map Int args with
           | Int v :: args' =>
               outcome_map (with_text (decimal v))
                 (expand s args' (count + String.length (decimal v)))
           | _ => Undefined
           end
         else if Ascii.eqb d "c"%char then
           match List.map Int args with
           | Int v :: args' =>
               outcome_map (with_text (String (char_of_int v) EmptyString))
                 (expand s args' (S count))
           | _ => Undefined
           end
         else if Ascii.eqb d "n"%char then
           match List.map Int args with
           | Pointer p :: args' =>
               outcome_map (with_store p (Z.of_nat count))
                 (expand s args' count)
           | _ => Undefined
           end
         else Unmodelled
       else
         outcome_map (with_text (String c EmptyString))
           (expand (String d s) (List.map Int args) (S count))).
    destruct (Ascii.eqb c "%").
    + destruct (Ascii.eqb d "%").
      * rewrite IHs. now destruct (format s args).
      * destruct (is_signed_int_conversion d).
        { destruct args as [|v args]; [reflexivity|]. cbn [List.map].
          rewrite IHs. now destruct (format s args). }
        destruct (Ascii.eqb d "c").
        { destruct args as [|v args]; [reflexivity|]. cbn [List.map].
          rewrite IHs. now destruct (format s args). }
        destruct (Ascii.eqb d "n"); [|reflexivity].
        now destruct args.
    + rewrite IHd. now destruct (format (String d s) args).
Qed.

(** [printf] with [int] arguments: the heap is not touched. *)
Lemma printf_ints (fmt : string) (args : list Z) (w : world) :
  printf fmt (List.map Int args) w =
  outcome_map
    (fun txt => (fst (transmit txt (stdout w)),
                 mkWorld (heap w) (snd (transmit txt (stdout w)))))
    (format fmt args).
Proof.
  unfold printf. rewrite expand_ints.
  destruct (format fmt args) as [txt| |]; simpl; try reflexivity.
  now destruct (transmit txt (stdout w)).
Qed.

Lemma printf_run (fmt : string) (args : list Z) (txt : string) (w : world) :
  format fmt args = Returns txt ->
  printf fmt (List.map Int args) w =
  Returns (fst (transmit txt (stdout w)),
           mkWorld (heap w) (snd (transmit txt (stdout w)))).
Proof.
  intros H. rewrite printf_ints, H. reflexivity.
Qed.

Lemma MYPRINTF_run (param : ptr) (w : world) (o : MYPRINTF_interface)
    (fmt : string) :
  heap w !! param = Some (PrintfBlock o) ->
  c_string (text o) = Some fmt ->
  MYPRINTF param w = printf fmt (List.map Int (value o :: nil)) w.
Proof.
  intros Hp Hs.
  unfold MYPRINTF, bind, deref_MYPRINTF, lift, string_of_array.
  rewrite Hp. simpl. rewrite Hs. reflexivity.
Qed.

(** What a call of [MYPRINTF] that returns has done. *)
Lemma MYPRINTF_inv (param : ptr) (w w' : world) (r : Z) :
  MYPRINTF param w = Returns (r, w') ->
  exists o fmt txt,
    heap w !! param = Some (PrintfBlock o) /\
    c_string (text o) = Some fmt /\
    format fmt (value o :: nil) = Returns txt /\
    r = fst (transmit txt (stdout w)) /\
    w' = mkWorld (heap w) (snd (transmit txt (stdout w))).
Proof.
  unfold MYPRINTF, bind, deref_MYPRINTF, lift, string_of_array.
  destruct (heap w !! param) as [[o|o]|] eqn:Hp; simpl; try discriminate.
  destruct (c_string (text o)) as [fmt|] eqn:Hs; simpl; try discriminate.
  change (Int (value o) :: nil) with (List.map Int (value o :: nil)).
  rewrite printf_ints.
  destruct (format fmt (value o :: nil)) as [txt| |] eqn:Hf; simpl;
    try discriminate.
  destruct (transmit txt (stdout w)) as [n f] eqn:Ht. simpl.
  intros [= <- <-]. exists o, fmt, txt. rewrite Ht. auto.
Qed.

(** C3: MYPRINTF on the template "Value: %d" and the value 42 writes
    exactly "Value: 42" to standard output and returns 9. *)
Theorem MYPRINTF_value_42 (param : ptr) (h : gmap ptr object)
    (o : MYPRINTF_interface) (out : string) :
  h !! param = Some (PrintfBlock o) ->
  c_string (text o) = Some "Value: %d" ->
  value o = 42 ->
  MYPRINTF param (mkWorld h (mkFILE out true)) =
  Returns (9, mkWorld h (mkFILE (out ++ "Value: 42") true)).
Proof.
  intros Hp Hs Hv.
  rewrite (MYPRINTF_run param _ o "Value: %d") by assumption.
  rewrite Hv. reflexivity.
Qed.

Lemma MYPRINTF_value_42_witness :
  MYPRINTF 1%positive (world_of (printf_block "Value: %d" 42) stdout0) =
  Returns (9, world_of (printf_block "Value: %d" 42)
                       (mkFILE "Value: 42" true)).
Proof.
  apply (MYPRINTF_value_42 1%positive _
           (mkMYPRINTF_interface (text_of_string "Value: %d") 42) "");
    reflexivity.
Defined.

(** C10: for a template without conversion directive, what MYPRINTF writes
    and returns does not depend on the value field: two calls with the
    same directive-free template and different values write the template
    verbatim and return the same count. *)
Theorem MYPRINTF_directive_free (p1 p2 : ptr) (w1 w2 : world)
    (o1 o2 : MYPRINTF_interface) (fmt : string) :
  heap w1 !! p1 = Some (PrintfBlock o1) ->
  heap w2 !! p2 = Some (PrintfBlock o2) ->
  c_string (text o1) = Some fmt ->
  c_string (text o2) = Some fmt ->
  occurrences "%"%char fmt = O ->
  stdout w1 = stdout w2 ->
  exists (r : Z) (f : FILE),
    MYPRINTF p1 w1 = Returns (r, mkWorld (heap w1) f) /\
    MYPRINTF p2 w2 = Returns (r, mkWorld (heap w2) f) /\
    (writable (stdout w1) = true ->
     r = Z.of_nat (String.length fmt) /\
     f = mkFILE (sent (stdout w1) ++ fmt) true).
Proof.
  intros H1 H2 S1 S2 Hfree Hout.
  exists (fst (transmit fmt (stdout w1))), (snd (transmit fmt (stdout w1))).
  rewrite (MYPRINTF_run p1 w1 o1 fmt H1 S1), (MYPRINTF_run p2 w2 o2 fmt H2 S2).
  rewrite !(printf_run fmt _ fmt) by now apply format_verbatim.
  rewrite <- Hout. split; [reflexivity|]. split; [reflexivity|].
  intros Hw. unfold transmit. rewrite Hw. split; reflexivity.
Qed.

Lemma MYPRINTF_directive_free_witness :
  exists (r : Z) (f : FILE),
    MYPRINTF 1%positive (world_of (printf_block "done" 7) stdout0) =
      Returns (r, mkWorld {[ 1%positive := printf_block "done" 7 ]} f) /\
    MYPRINTF 1%positive (world_of (printf_block "done" (-300)) stdout0) =
      Returns (r, mkWorld {[ 1%positive := printf_block "done" (-300) ]} f) /\
    (true = true -> r = 4 /\ f = mkFILE "done" true).
Proof.
  apply (MYPRINTF_directive_free 1%positive 1%positive
           (world_of (printf_block "done" 7) stdout0)
           (world_of (printf_block "done" (-300)) stdout0)
           (mkMYPRINTF_interface (text_of_string "done") 7)
           (mkMYPRINTF_interface (text_of_string "done") (-300))
           "done"); reflexivity.
Defined.







(** C9: the parameter block of MYPRINTF has exactly two fields, a character
    array of capacity 81 that includes the terminating null character, and
    one integer; so a template MYPRINTF accepts has at most 80
    characters. *)
Theorem MYPRINTF_interface_capacity (o : MYPRINTF_interface) :
  MYPRINTF_interface_wf o ->
  o = mkMYPRINTF_interface (text o) (value o) /\
  List.length (text o) = 81%nat /\
  (forall fmt, c_string (text o) = Some fmt -> (String.length fmt <= 80)%nat) /\
  (forall param w,
     heap w !! param = Some (PrintfBlock o) ->
     MYPRINTF param w <> Undefined ->
     exists fmt, c_string (text o) = Some fmt /\ (String.length fmt <= 80)%nat).
Proof.
  intros [Hlen _].
  assert (Hfit : forall fmt, c_string (text o) = Some fmt ->
                             (String.length fmt <= 80)%nat).
  { intros fmt Hs. apply c_string_length in Hs.
    rewrite Hlen in Hs. unfold TEXT_CAPACITY in Hs. lia. }
  split; [now destruct o|]. split; [exact Hlen|]. split; [exact Hfit|].
  intros param w Hp Hdef.
  destruct (c_string (text o)) as [fmt|] eqn:Hs; [eauto|].
  exfalso. apply Hdef.
  unfold MYPRINTF, bind, deref_MYPRINTF, lift, string_of_array.
  rewrite Hp. simpl. rewrite Hs. reflexivity.
Qed.

Lemma MYPRINTF_interface_capacity_witness :
  let o := mkMYPRINTF_interface (text_of_string "Value: %d") 42 in
  o = mkMYPRINTF_interface (text o) (value o) /\
  List.length (text o) = 81%nat /\
  (forall fmt, c_string (text o) = Some fmt -> (String.length fmt <= 80)%nat) /\
  (forall param w,
     heap w !! param = Some (PrintfBlock o) ->
     MYPRINTF param w <> Undefined ->
     exists fmt, c_string (text o) = Some fmt /\ (String.length fmt <= 80)%nat).
Proof.
  intros o. apply (MYPRINTF_interface_capacity o).
  split; [reflexivity|]. unfold int_range, INT_MIN, INT_MAX. simpl. lia.
Defined.

(** The bound is reached: a template of 80 characters fits, and an array
    filled with 81 characters holds no string for [printf] to read. *)
Example MYPRINTF_template_of_80 :
  let s := string_of_list_ascii (List.repeat "a"%char 80) in
  MYPRINTF 1%positive (world_of (printf_block s 0) stdout0) =
  Returns (80, world_of (printf_block s 0) (mkFILE s true)).
Proof. reflexivity. Qed.

Example MYPRINTF_array_without_terminator :
  let o := mkMYPRINTF_interface (List.repeat "a"%char 81) 0 in
  MYPRINTF_interface_wf o /\
  MYPRINTF 1%positive (world_of (PrintfBlock o) stdout0) = Undefined.
Proof.
  split; [|reflexivity]. split; [reflexivity|].
  unfold int_range, INT_MIN, INT_MAX. simpl. lia.
Qed.

(** ** The conversion from [int] to [double] is exact *)

Lemma digits2_pos_size (m : positive) : digits2_pos m = Pos.size m.
Proof. induction m; simpl; congruence. Qed.

Lemma digits2_pos_bound (m : positive) (n : Z) :
  0 <= n -> Z.pos m < 2 ^ n -> Z.pos (digits2_pos m) <= n.
Proof.
  intros Hn Hm. rewrite digits2_pos_size.
  pose proof (Pos.size_le m) as H.
  apply Pos2Z.pos_le_pos in H. rewrite Pos2Z.inj_pow in H.
  change (Z.pos m~0) with (2 * Z.pos m) in H.
  destruct (Z_lt_le_dec n (Z.pos (Pos.size m))) as [Hlt|]; [|assumption].
  exfalso.
  assert (2 ^ (n + 1) <= 2 ^ Z.pos (Pos.size m))
    by (apply Z.pow_le_mono_r; lia).
  rewrite Z.pow_add_r in H0 by lia. lia.
Qed.

Lemma iter_xO_digits (m d : positive) :
  digits2_pos (Pos.iter xO m d) = (digits2_pos m + d)%positive.
Proof.
  induction d as [|d IH] using Pos.peano_ind.
  - simpl. lia.
  - rewrite Pos.iter_succ. simpl. rewrite IH. lia.
Qed.

Lemma iter_xO_value (m d : positive) :
  Z.pos (Pos.iter xO m d) = Z.pos m * 2 ^ Z.pos d.
Proof.
  induction d as [|d IH] using Pos.peano_ind.
  - simpl. lia.
  - rewrite Pos.iter_succ, Pos2Z.inj_succ, Z.pow_succ_r by lia.
    change (Z.pos (Pos.iter xO m d)~0) with (2 * Z.pos (Pos.iter xO m d)).
    rewrite IH. ring.
Qed.

Lemma binary_round_aux_exact (s : bool) (m : positive) (e : Z) :
  Z.pos (digits2_pos m) = 53 ->
  - 1074 <= e <= 971 ->
  binary_round_aux 53 1024 s (Z.pos m) e loc_Exact = S754_finite s m e.
Proof.
  intros Hd He.
  assert (F : Z.max (Z.pos (digits2_pos m) + e - 53) (3 - 1024 - 53) - e = 0)
    by lia.
  unfold binary_round_aux, shr_fexp, fexp, emin. cbn [Zdigits2].
  rewrite F. cbn [shr shr_record_of_loc loc_of_shr_record shr_m
                  round_nearest_even Zdigits2].
  rewrite F. cbn [shr shr_record_of_loc shr_m].
  replace (e <=? 1024 - 53) with true by (symmetry; apply Z.leb_le; lia).
  reflexivity.
Qed.

(** A mantissa of at most 53 bits is only shifted into place. *)
Lemma binary_round_exact (s : bool) (m : positive) :
  Z.pos m < 2 ^ 53 ->
  exists (m' : positive) (e' : Z),
    binary_round 53 1024 s m 0 = S754_finite s m' e' /\
    - 52 <= e' <= 0 /\
    Z.pos m' = Z.pos m * 2 ^ (- e').
Proof.
  intros Hm.
  assert (HD : Z.pos (digits2_pos m) <= 53) by (apply digits2_pos_bound; lia).
  pose proof (Pos2Z.is_pos (digits2_pos m)) as HD0.
  unfold binary_round, shl_align, fexp, emin.
  replace (Z.max (Z.pos (digits2_pos m) + 0 - 53) (3 - 1024 - 53))
    with (Z.pos (digits2_pos m) - 53) by lia.
  rewrite Z.sub_0_r.
  destruct (Z.pos (digits2_pos m) - 53) as [|q|q] eqn:E; [|lia|].
  - exists m, 0. rewrite binary_round_aux_exact by lia.
    split; [reflexivity|]. split; [lia|]. simpl. lia.
  - exists (Pos.iter xO m q), (Z.neg q).
    rewrite binary_round_aux_exact.
    + split; [reflexivity|]. split; [lia|].
      rewrite iter_xO_value. reflexivity.
    + rewrite iter_xO_digits, Pos2Z.inj_add. lia.
    + lia.
Qed.

Lemma double_of_int_finite (v : Z) :
  v <> 0 -> Z.abs v < 2 ^ 53 ->
  exists (m' : positive) (e' : Z),
    double_of_int v = S754_finite (v <? 0) m' e' /\
    - 52 <= e' <= 0 /\
    Z.pos m' = Z.abs v * 2 ^ (- e').
Proof.
  intros Hv Hb. unfold double_of_int, binary_normalize.
  destruct v as [|m|m]; [contradiction| |];
    apply binary_round_exact; exact Hb.
Qed.

Lemma SF2R_double_of_int (v : Z) :
  Z.abs v < 2 ^ 53 -> SF2R (double_of_int v) = IZR v.
Proof.
  intros Hb. destruct (Z.eq_dec v 0) as [->|Hv]; [reflexivity|].
  destruct (double_of_int_finite v Hv Hb) as (m' & e' & -> & He & Hm).
  unfold SF2R. rewrite Hm.
  assert (Hp : 0 < 2 ^ (- e')) by (apply Z.pow_pos_nonneg; lia).
  assert (HpR : (0 < IZR (2 ^ (- e')))%R) by (apply IZR_lt; exact Hp).
  destruct (Z.leb_spec 0 e') as [H0|H0].
  - replace e' with 0 in * by lia. simpl (2 ^ 0). simpl (2 ^ (- 0)).
    rewrite Z.mul_1_r.
    destruct (Z.ltb_spec v 0); [rewrite Z.abs_neq by lia; rewrite opp_IZR|
                                rewrite Z.abs_eq by lia]; lra.
  - rewrite mult_IZR.
    destruct (Z.ltb_spec v 0); [rewrite Z.abs_neq by lia; rewrite opp_IZR|
                                rewrite Z.abs_eq by lia]; field; lra.
Qed.

(** ** Running [MYLOG] *)

Lemma transmit_refused (txt : string) (f : FILE) :
  writable f = false -> snd (transmit txt f) = f.
Proof. unfold transmit. intros ->. now destruct txt. Qed.

Lemma transmit_twice (s t : string) (f : FILE) :
  snd (transmit t (snd (transmit s f))) = snd (transmit (s ++ t) f).
Proof.
  destruct (writable f) eqn:Hw.
  - unfold transmit. rewrite Hw. simpl. now rewrite append_assoc.
  - now rewrite !transmit_refused by (rewrite ?transmit_refused; assumption).
Qed.

Lemma transmit_writable (txt : string) (f : FILE) :
  writable (snd (transmit txt f)) = writable f.
Proof. unfold transmit. destruct f as [out [|]]; now destruct txt. Qed.

(** What one call transmits depends on the stream only through
    [writable]. *)
Lemma transmit_effect (txt : string) (f : FILE) :
  sent (snd (transmit txt f)) =
  (sent f ++ (if writable f then txt else ""))%string.
Proof.
  destruct (writable f) eqn:Hw.
  - unfold transmit. now rewrite Hw.
  - now rewrite transmit_refused, append_nil_r.
Qed.

Lemma transmit_result (txt : string) (f : FILE) :
  fst (transmit txt f) =
  if writable f then Z.of_nat (String.length txt)
  else match txt with EmptyString => 0 | String _ _ => EOF end.
Proof.
  unfold transmit. destruct (writable f); [reflexivity|now destruct txt].
Qed.

Lemma appended_transmit (w : world) (txt : string) :
  appended w (mkWorld (heap w) (snd (transmit txt (stdout w))))
           (if writable (stdout w) then txt else "").
Proof.
  unfold appended. simpl.
  rewrite transmit_writable, transmit_effect. auto.
Qed.

Section MYLOG_properties.

Variable log10 : double -> double.
Variable invalid_int : double -> Z.

Lemma MYLOG_run (param : ptr) (w : world) (o : MYLOG_interface) :
  heap w !! param = Some (LogBlock o) ->
  MYLOG log10 invalid_int param w =
  Returns (log_result log10 invalid_int (x o),
           mkWorld (heap w)
             (snd (transmit (log_trace log10 invalid_int (x o)) (stdout w)))).
Proof.
  intros Hp. unfold MYLOG, bind, deref_MYLOG. rewrite Hp.
  cbn [outcome_bind fst snd].
  change (Int (x o) :: nil) with (List.map Int (x o :: nil)).
  rewrite (printf_run _ _ ("Calling log with " ++ decimal (x o) ++ nl))
    by reflexivity.
  cbn [outcome_bind fst snd stdout heap].
  fold (log_result log10 invalid_int (x o)).
  change (Int (log_result log10 invalid_int (x o)) :: nil)
    with (List.map Int (log_result log10 invalid_int (x o) :: nil)).
  rewrite (printf_run _ _
             ("result :  " ++ decimal (log_result log10 invalid_int (x o))
                ++ nl)) by reflexivity.
  cbn [outcome_bind fst snd stdout heap]. unfold ret.
  now rewrite transmit_twice.
Qed.

Lemma MYLOG_inv (param : ptr) (w w' : world) (r : Z) :
  MYLOG log10 invalid_int param w = Returns (r, w') ->
  exists o, heap w !! param = Some (LogBlock o).
Proof.
  unfold MYLOG, bind, deref_MYLOG.
  destruct (heap w !! param) as [[o|o]|]; simpl; try discriminate. eauto.
Qed.

Lemma trace_newlines (v : Z) :
  occurrences "010"%char (log_trace log10 invalid_int v) = 2%nat.
Proof.
  unfold log_trace.
  rewrite !occurrences_append, !decimal_no_newline. reflexivity.
Qed.

(** C4: for every input x, MYLOG writes exactly two trace lines to
    standard output, "Calling log with <x>" before the computation and
    "result :  <res>" (two spaces before the value) after it, and <res>
    is the integer MYLOG returns. *)
Theorem MYLOG_trace (param : ptr) (h : gmap ptr object)
    (o : MYLOG_interface) (out : string) :
  h !! param = Some (LogBlock o) ->
  exists res : Z,
    MYLOG log10 invalid_int param (mkWorld h (mkFILE out true)) =
    Returns (res,
             mkWorld h
               (mkFILE (out ++ ("Calling log with " ++ decimal (x o) ++ nl)
                            ++ ("result :  " ++ decimal res ++ nl)) true)) /\
    res = int_of_double invalid_int (log10 (double_of_int (x o))) /\
    read_decimal (decimal (x o)) = Some (x o) /\
    read_decimal (decimal res) = Some res /\
    occurrences "010"%char
      (("Calling log with " ++ decimal (x o) ++ nl)
         ++ ("result :  " ++ decimal res ++ nl)) = 2%nat.
Proof.
  intros Hp. exists (log_result log10 invalid_int (x o)).
  rewrite (MYLOG_run param _ o) by exact Hp.
  split; [reflexivity|]. split; [reflexivity|].
  split; [apply read_decimal_decimal|].
  split; [apply read_decimal_decimal|]. apply trace_newlines.
Qed.

End MYLOG_properties.



Lemma MYLOG_trace_witness :
  exists res : Z,
    MYLOG log10_sample invalid_int_x86 1%positive
      (world_of (log_block 1000) stdout0) =
    Returns (res,
             world_of (log_block 1000)
               (mkFILE ("" ++ ("Calling log with " ++ decimal 1000 ++ nl)
                           ++ ("result :  " ++ decimal res ++ nl)) true)) /\
    res = int_of_double invalid_int_x86 (log10_sample (double_of_int 1000)) /\
    read_decimal (decimal 1000) = Some 1000 /\
    read_decimal (decimal res) = Some res /\
    occurrences "010"%char
      (("Calling log with " ++ decimal 1000 ++ nl)
         ++ ("result :  " ++ decimal res ++ nl)) = 2%nat.
Proof.
  apply (MYLOG_trace log10_sample invalid_int_x86 1%positive
           {[ 1%positive := log_block 1000 ]} (mkMYLOG_interface 1000) "").
  reflexivity.
Defined.

(** ** Repeated calls, and what a call leaves untouched *)

(** [printf] itself can change a block: [%n] stores the count of the
    characters written so far through the pointer it is given. *)
Example printf_stores_through_pointer :
  printf "ab%n" (Pointer 1%positive :: nil) (world_of (log_block 7) stdout0) =
  Returns (2, world_of (log_block 2) (mkFILE "ab" true)).
Proof. reflexivity. Qed.

(** Not every program over [printf] repeats: one that calls [MYLOG] and
    then has [printf] store a count into the block returns 3 for the
    operand 1000 the first time and 0 for the operand 2 it left the
    second time. *)
Example storing_program_does_not_repeat :
  ~ repeats
      (do r <- MYLOG log10_sample invalid_int_x86 1%positive;
       do n <- printf "ab%n" (Pointer 1%positive :: nil);
       ret r)
      (world_of (log_block 1000) stdout0).
Proof.
  intros (r & txt & w1 & w2 & H1 & _ & H2 & _).
  vm_compute in H1. injection H1 as <- <-.
  vm_compute in H2. discriminate H2.
Qed.







Section MYLOG_results.

Variable log10 : double -> double.
Variable invalid_int : double -> Z.

Lemma int_of_double_not_finite (d : double) :
  is_finite d = false -> int_of_double invalid_int d = invalid_int d.
Proof. destruct d; simpl; try discriminate; reflexivity. Qed.

(** Where the logarithm does not exist, an Annex F libm answers with an
    infinity or a NaN. *)
Lemma log10_nonpositive (v : Z) :
  annex_F log10 -> int_range v -> v <= 0 ->
  is_finite (log10 (double_of_int v)) = false.
Proof.
  intros (Hzero & Hneg & _) [Hlo Hhi] Hv.
  unfold INT_MIN, INT_MAX in *.
  destruct (Z.eq_dec v 0) as [->|Hnz].
  - change (double_of_int 0) with (S754_zero false). now rewrite Hzero.
  - destruct (double_of_int_finite v Hnz) as (m & e & -> & _); [lia|].
    replace (v <? 0) with true by (symmetry; apply Z.ltb_lt; lia).
    now rewrite Hneg.
Qed.

(** C6: MYLOG validates nothing and has no error path: for every x it
    returns the integer obtained by casting libm's logarithm; for
    x <= 0 that logarithm is an infinity or a NaN and the integer is
    whatever the platform's conversion produces for it. *)
Theorem MYLOG_no_validation (param : ptr) (w : world)
    (o : MYLOG_interface) :
  heap w !! param = Some (LogBlock o) ->
  exists r w',
    MYLOG log10 invalid_int param w = Returns (r, w') /\
    r = int_of_double invalid_int (log10 (double_of_int (x o))) /\
    (int_range (x o) -> x o <= 0 -> annex_F log10 ->
     is_finite (log10 (double_of_int (x o))) = false /\
     r = invalid_int (log10 (double_of_int (x o)))).
Proof.
  intros Hp. rewrite (MYLOG_run log10 invalid_int param w o Hp).
  eexists. eexists. split; [reflexivity|]. split; [reflexivity|].
  intros Hr Hv HF.
  pose proof (log10_nonpositive (x o) HF Hr Hv) as Hnf.
  split; [exact Hnf|]. now apply int_of_double_not_finite.
Qed.

End MYLOG_results.

Lemma log10_sample_annex_F : annex_F log10_sample.
Proof. repeat split. Qed.

Lemma MYLOG_no_validation_witness :
  exists r w',
    MYLOG log10_sample invalid_int_x86 1%positive
      (world_of (log_block (-5)) stdout0) = Returns (r, w') /\
    r = INT_MIN.
Proof.
  destruct (MYLOG_no_validation log10_sample invalid_int_x86 1%positive
              (world_of (log_block (-5)) stdout0) (mkMYLOG_interface (-5))
              eq_refl) as (r & w' & H & _ & Hcast).
  exists r, w'. split; [exact H|].
  apply Hcast.
  - unfold int_range, INT_MIN, INT_MAX. simpl. lia.
  - simpl. lia.
  - exact log10_sample_annex_F.
Defined.

(** ** The cast of a [double] known between two consecutive integers *)

Lemma truncate_between (d : double) (k : Z) :
  is_finite d = true -> 0 <= k ->
  (IZR k <= SF2R d < IZR k + 1)%R ->
  truncate d = Some k.
Proof.
  intros Hfin Hk [Hlo Hhi].
  destruct d as [s|s| |s m e]; simpl in Hfin; try discriminate.
  - simpl in *. f_equal.
    rewrite <- plus_IZR in Hhi. apply le_IZR in Hlo. apply lt_IZR in Hhi. lia.
  - assert (Hk0 : (0 <= IZR k)%R) by (apply IZR_le; exact Hk).
    assert (Hm : (0 < IZR (Z.pos m))%R) by (apply IZR_lt; lia).
    unfold SF2R in Hlo, Hhi. unfold truncate.
    destruct (Z.leb_spec 0 e) as [He|He].
    + assert (Hp : 0 < 2 ^ e) by (apply Z.pow_pos_nonneg; lia).
      assert (HpR : (0 < IZR (2 ^ e))%R) by (apply IZR_lt; exact Hp).
      destruct s.
      * exfalso. nra.
      * f_equal. rewrite Rmult_1_l, <- mult_IZR in Hlo, Hhi.
        rewrite <- plus_IZR in Hhi.
        apply le_IZR in Hlo. apply lt_IZR in Hhi. lia.
    + assert (Hp : 0 < 2 ^ (- e)) by (apply Z.pow_pos_nonneg; lia).
      assert (HpR : (0 < IZR (2 ^ (- e)))%R) by (apply IZR_lt; exact Hp).
      assert (Hinv : (0 < / IZR (2 ^ (- e)))%R) by (apply Rinv_0_lt_compat; exact HpR).
      assert (Hone : (IZR (2 ^ (- e)) * / IZR (2 ^ (- e)) = 1)%R)
        by (apply Rinv_r; lra).
      destruct s.
      * exfalso. nra.
      * f_equal. rewrite Rmult_1_l in Hlo, Hhi.
        assert (H1 : (IZR (k * 2 ^ (- e)) <= IZR (Z.pos m))%R)
          by (rewrite mult_IZR; nra).
        assert (H2 : (IZR (Z.pos m) < IZR ((k + 1) * 2 ^ (- e)))%R)
          by (rewrite mult_IZR, plus_IZR; nra).
        apply le_IZR in H1. apply lt_IZR in H2.
        symmetry. apply (Z.div_unique _ _ _ (Z.pos m - k * 2 ^ (- e))); lia.
Qed.

(** ** Bounds on the real logarithm *)

Lemma ln_gap (a b : R) :
  (0 < b <= a)%R -> ((a - b) / a <= ln a - ln b)%R.
Proof.
  intros [Hb Hab].
  assert (Ha : (0 < a)%R) by lra.
  assert (Hq : (0 < b / a)%R) by (apply Rdiv_lt_0_compat; assumption).
  pose proof (exp_ineq1_le (ln (b / a))) as H.
  rewrite exp_ln in H by exact Hq.
  unfold Rdiv in H at 1.
  rewrite ln_mult, ln_Rinv in H
    by (try apply Rinv_0_lt_compat; assumption).
  replace ((a - b) / a)%R with (1 - b / a)%R by (field; lra).
  lra.
Qed.

Lemma ln_10_bounds : (0 < ln 10 <= 9)%R.
Proof.
  split.
  - rewrite <- ln_1. apply ln_increasing; lra.
  - pose proof (exp_ineq1_le (ln 10)) as H.
    rewrite exp_ln in H by lra. lra.
Qed.

Lemma ln_pow10 (k : Z) :
  0 <= k -> ln (IZR (10 ^ k)) = (IZR k * ln 10)%R.
Proof.
  intros Hk. rewrite <- (Z2Nat.id k Hk) at 1.
  rewrite <- pow_IZR, ln_pow by lra.
  rewrite INR_IZR_INZ, Z2Nat.id by exact Hk. reflexivity.
Qed.

Lemma log10R_pow10 (k : Z) : 0 <= k -> log10R (IZR (10 ^ k)) = IZR k.
Proof.
  intros Hk. unfold log10R. rewrite ln_pow10 by exact Hk.
  pose proof ln_10_bounds. field. lra.
Qed.

(** An [int] that is not a power of ten has its logarithm well inside
    the interval between two integers. *)
Lemma log10R_inside (v k : Z) :
  0 <= k <= 9 -> 10 ^ k < v < 10 ^ (k + 1) -> v <= INT_MAX ->
  (IZR k + 2 * / IZR (2 ^ 40) <= log10R (IZR v)
   <= IZR k + 1 - 2 * / IZR (2 ^ 40))%R.
Proof.
  intros Hk [Hlo Hhi] Hmax. unfold INT_MAX in Hmax.
  pose proof ln_10_bounds as [HT0 HT9].
  assert (Hb : 0 < 10 ^ k) by (apply Z.pow_pos_nonneg; lia).
  assert (Hc : 10 ^ (k + 1) <= 10 ^ 10) by (apply Z.pow_le_mono_r; lia).
  assert (HbR : (1 <= IZR (10 ^ k))%R) by (apply IZR_le; lia).
  assert (HvR : (IZR (10 ^ k) + 1 <= IZR v)%R)
    by (rewrite <- plus_IZR; apply IZR_le; lia).
  assert (HvM : (IZR v <= 2147483647)%R) by (apply IZR_le; simpl in Hmax; lia).
  assert (HcR : (IZR v + 1 <= IZR (10 ^ (k + 1)))%R)
    by (rewrite <- plus_IZR; apply IZR_le; lia).
  assert (HcM : (IZR (10 ^ (k + 1)) <= 10000000000)%R)
    by (apply IZR_le; simpl in Hc; lia).
  pose proof (ln_gap (IZR v) (IZR (10 ^ k))) as G1.
  pose proof (ln_gap (IZR (10 ^ (k + 1))) (IZR v)) as G2.
  rewrite ln_pow10 in G1 by lia. rewrite ln_pow10 in G2 by lia.
  rewrite plus_IZR in G2.
  specialize (G1 ltac:(lra)). specialize (G2 ltac:(lra)).
  assert (D1 : (/ 2147483647 <= (IZR v - IZR (10 ^ k)) / IZR v)%R).
  { apply Rle_trans with (/ IZR v)%R.
    - apply Rinv_le_contravar; lra.
    - unfold Rdiv. rewrite <- (Rmult_1_l (/ IZR v)) at 1.
      apply Rmult_le_compat_r; [|lra].
      apply Rlt_le, Rinv_0_lt_compat. lra. }
  assert (D2 : (/ 10000000000 <=
                (IZR (10 ^ (k + 1)) - IZR v) / IZR (10 ^ (k + 1)))%R).
  { apply Rle_trans with (/ IZR (10 ^ (k + 1)))%R.
    - apply Rinv_le_contravar; lra.
    - unfold Rdiv. rewrite <- (Rmult_1_l (/ IZR (10 ^ (k + 1)))) at 1.
      apply Rmult_le_compat_r; [|lra].
      apply Rlt_le, Rinv_0_lt_compat. lra. }
  change (2 ^ 40) with 1099511627776.
  unfold log10R.
  set (T := ln 10) in *. set (A := ln (IZR v)) in *.
  assert (HTi : (0 < / T)%R) by (apply Rinv_0_lt_compat; exact HT0).
  assert (HTT : (T * / T = 1)%R) by (apply Rinv_r; lra).
  assert (E1 : (A / T - IZR k = (A - IZR k * T) * / T)%R) by (field; lra).
  assert (E2 : (IZR k + 1 - A / T = ((IZR k + 1) * T - A) * / T)%R)
    by (field; lra).
  assert (F : (/ 9 <= / T)%R) by (apply Rinv_le_contravar; lra).
  split.
  - assert ((/ 2147483647) * / 9 <= (A - IZR k * T) * / T)%R
      by (apply Rmult_le_compat; lra).
    lra.
  - assert ((/ 10000000000) * / 9 <= ((IZR k + 1) * T - A) * / T)%R
      by (apply Rmult_le_compat; lra).
    lra.
Qed.

(** ** The logarithm of a positive [int] *)

Lemma decade_exists (v : Z) :
  1 <= v <= INT_MAX ->
  exists k, 0 <= k <= 9 /\ 10 ^ k <= v < 10 ^ (k + 1).
Proof.
  unfold INT_MAX. intros [Hlo Hhi].
  destruct (Z_lt_le_dec v (10 ^ 1)); [exists 0; simpl in *; lia|].
  destruct (Z_lt_le_dec v (10 ^ 2)); [exists 1; simpl in *; lia|].
  destruct (Z_lt_le_dec v (10 ^ 3)); [exists 2; simpl in *; lia|].
  destruct (Z_lt_le_dec v (10 ^ 4)); [exists 3; simpl in *; lia|].
  destruct (Z_lt_le_dec v (10 ^ 5)); [exists 4; simpl in *; lia|].
  destruct (Z_lt_le_dec v (10 ^ 6)); [exists 5; simpl in *; lia|].
  destruct (Z_lt_le_dec v (10 ^ 7)); [exists 6; simpl in *; lia|].
  destruct (Z_lt_le_dec v (10 ^ 8)); [exists 7; simpl in *; lia|].
  destruct (Z_lt_le_dec v (10 ^ 9)); [exists 8; simpl in *; lia|].
  exists 9; simpl in *; lia.
Qed.

Lemma decade_unique (v k n : Z) :
  0 <= k <= 9 -> 10 ^ k <= v < 10 ^ (k + 1) ->
  0 <= n <= 9 -> 10 ^ n <= v < 10 ^ (n + 1) -> k = n.
Proof.
  intros Hk Hv Hn Hw.
  destruct (Z.lt_trichotomy k n) as [H|[H|H]]; [exfalso| exact H |exfalso].
  - assert (10 ^ (k + 1) <= 10 ^ n) by (apply Z.pow_le_mono_r; lia). lia.
  - assert (10 ^ (n + 1) <= 10 ^ k) by (apply Z.pow_le_mono_r; lia). lia.
Qed.

Lemma Rabs_bounds (a b : R) : (Rabs a <= b)%R -> (- b <= a <= b)%R.
Proof.
  unfold Rabs. destruct (Rcase_abs a); intros H; lra.
Qed.

Section MYLOG_logarithm.

Variable log10 : double -> double.
Variable invalid_int : double -> Z.

(** With a faithful libm, the cast of [log10] of a positive [int] is
    the integer [k] of its decade. *)
Lemma int_of_double_log10 (v k : Z) :
  1 <= v <= INT_MAX ->
  0 <= k <= 9 -> 10 ^ k <= v < 10 ^ (k + 1) ->
  faithful_at log10 (double_of_int v) ->
  int_of_double invalid_int (log10 (double_of_int v)) = k /\
  (IZR k <= log10R (IZR v) < IZR k + 1)%R.
Proof.
  intros Hv Hk Hd (Hfin & Hexact & Hnear).
  assert (Hconv : SF2R (double_of_int v) = IZR v).
  { apply SF2R_double_of_int. unfold INT_MAX in Hv.
    rewrite Z.abs_eq by lia.
    apply Z.le_lt_trans with (2 ^ 31 - 1); [lia|reflexivity]. }
  rewrite Hconv in Hexact, Hnear.
  assert (Htiny : (0 < / IZR (2 ^ 40))%R)
    by (apply Rinv_0_lt_compat, IZR_lt; reflexivity).
  assert (Hbetween :
            (IZR k <= SF2R (log10 (double_of_int v)) < IZR k + 1)%R /\
            (IZR k <= log10R (IZR v) < IZR k + 1)%R).
  { destruct (Z.eq_dec v (10 ^ k)) as [->|Hne].
    - rewrite (Hexact k), log10R_pow10 by (try apply log10R_pow10; lia).
      lra.
    - pose proof (log10R_inside v k Hk ltac:(lia) ltac:(lia)) as Hin.
      apply Rabs_bounds in Hnear. lra. }
  destruct Hbetween as [Hy HL]. split; [|exact HL].
  unfold int_of_double.
  rewrite (truncate_between _ k Hfin ltac:(lia) Hy).
  replace (in_int_range k) with true; [reflexivity|].
  symmetry. unfold in_int_range, INT_MIN, INT_MAX.
  apply andb_true_intro. split; apply Z.leb_le; simpl; lia.
Qed.

(** C1: for every positive integer x, MYLOG returns the base-10
    logarithm of x truncated to an integer; in particular 2 for 100,
    1 for 99, 0 for 1 and 3 for 1000. *)
Theorem MYLOG_truncated_log10 (param : ptr) (w : world)
    (o : MYLOG_interface) :
  heap w !! param = Some (LogBlock o) ->
  1 <= x o <= INT_MAX ->
  faithful_at log10 (double_of_int (x o)) ->
  exists r w',
    MYLOG log10 invalid_int param w = Returns (r, w') /\
    0 <= r /\
    10 ^ r <= x o < 10 ^ (r + 1) /\
    (IZR r <= log10R (IZR (x o)) < IZR r + 1)%R /\
    (x o = 100 -> r = 2) /\
    (x o = 99 -> r = 1) /\
    (x o = 1 -> r = 0) /\
    (x o = 1000 -> r = 3).
Proof.
  intros Hp Hv Hlibm.
  destruct (decade_exists (x o) Hv) as (k & Hk & Hd).
  destruct (int_of_double_log10 (x o) k Hv Hk Hd Hlibm) as [Hres HL].
  rewrite (MYLOG_run log10 invalid_int param w o Hp).
unfold log_result at 1. rewrite Hres.
  eexists. eexists. split; [reflexivity|].
  split; [lia|]. split; [exact Hd|]. split; [exact HL|].
  repeat split; intros E; rewrite E in Hd;
    [apply (decade_unique 100 k 2)|apply (decade_unique 99 k 1)
    |apply (decade_unique 1 k 0)|apply (decade_unique 1000 k 3)];
    try exact Hk; try exact Hd; simpl; lia.
Qed.

End MYLOG_logarithm.

Lemma log10_sample_faithful_1000 :
  faithful_at log10_sample (double_of_int 1000).
Proof.
  assert (Hx : SF2R (double_of_int 1000) = IZR (10 ^ 3))
    by (apply SF2R_double_of_int; reflexivity).
  assert (Hy : SF2R (log10_sample (double_of_int 1000)) = 3%R).
  { change (log10_sample (double_of_int 1000)) with (double_of_int 3).
    apply SF2R_double_of_int. reflexivity. }
  split; [reflexivity|]. rewrite Hx, Hy, log10R_pow10 by lia.
  split.
  - intros n Hn. exact Hn.
  - replace (3 - 3)%R with 0%R by ring. rewrite Rabs_R0.
    apply Rlt_le, Rinv_0_lt_compat, IZR_lt. reflexivity.
Qed.

Lemma MYLOG_truncated_log10_witness :
  exists r w',
    MYLOG log10_sample invalid_int_x86 1%positive
      (world_of (log_block 1000) stdout0) = Returns (r, w') /\
    r = 3.
Proof.
  destruct (MYLOG_truncated_log10 log10_sample invalid_int_x86 1%positive
              (world_of (log_block 1000) stdout0) (mkMYLOG_interface 1000))
    as (r & w' & H & _ & _ & _ & _ & _ & _ & H1000).
  - reflexivity.
  - unfold INT_MAX. simpl. lia.
  - exact log10_sample_faithful_1000.
  - exists r, w'. split; [exact H|]. apply H1000. reflexivity.
Defined.

(** ** How many characters [%d] writes *)

Lemma usize_length (d : uint) :
  N.of_nat (String.length (NilEmpty.string_of_uint d)) =
  DecimalPos.Unsigned.usize d.
Proof.
  induction d; simpl String.length; simpl DecimalPos.Unsigned.usize;
    rewrite ?Nat2N.inj_succ, ?IHd; reflexivity.
Qed.

Lemma of_lu_rev_cons (d : uint) :
  (DecimalPos.Unsigned.of_lu (Decimal.rev d) < 10 ^ DecimalPos.Unsigned.usize d)%N /\
  (d <> Nil -> (forall d', d <> D0 d') ->
   10 ^ N.pred (DecimalPos.Unsigned.usize d)
   <= DecimalPos.Unsigned.of_lu (Decimal.rev d))%N.
Proof.
  assert (Hlt : forall l,
             (DecimalPos.Unsigned.of_lu (Decimal.rev l)
              < 10 ^ DecimalPos.Unsigned.usize l)%N).
  { induction l; simpl DecimalPos.Unsigned.usize;
      [simpl; lia|..];
      rewrite N.pow_succ_r'; unfold Decimal.rev; simpl Decimal.revapp;
      rewrite DecimalPos.Unsigned.of_lu_revapp; simpl DecimalPos.Unsigned.of_lu;
      fold (Decimal.rev l); lia. }
  split; [apply Hlt|].
  intros Hnil Hhead.
  destruct d; try (now destruct Hnil); try (now destruct (Hhead d));
    simpl DecimalPos.Unsigned.usize; rewrite N.pred_succ;
    unfold Decimal.rev; simpl Decimal.revapp;
    rewrite DecimalPos.Unsigned.of_lu_revapp; simpl DecimalPos.Unsigned.of_lu;
    fold (Decimal.rev d); lia.
Qed.

Lemma to_uint_head (p : positive) (d' : uint) : Pos.to_uint p <> D0 d'.
Proof.
  intros E.
  pose proof (DecimalPos.Unsigned.to_of (Pos.to_uint p)) as H.
  rewrite DecimalPos.Unsigned.of_to in H. simpl in H.
  assert (Hn : Decimal.nzhead (Pos.to_uint p) <> Nil).
  { intros Hz. apply DecimalFacts.unorm_0 in Hz. rewrite <- H in Hz.
    now apply DecimalPos.Unsigned.to_uint_nonzero in Hz. }
  rewrite (DecimalFacts.unorm_nzhead _ Hn) in H.
  rewrite E in H at 1. symmetry in H.
  now apply DecimalFacts.nzhead_nonzero in H.
Qed.

(** A positive number of the decade [k] is written with [k + 1] digits. *)
Lemma decimal_length_pos (v k : Z) :
  0 <= k -> 10 ^ k <= v < 10 ^ (k + 1) ->
  Z.of_nat (String.length (decimal v)) = k + 1.
Proof.
  intros Hk Hv.
  assert (Hpos : 0 < v)
    by (apply Z.lt_le_trans with (10 ^ k); [apply Z.pow_pos_nonneg|]; lia).
  destruct v as [|p|p]; try lia.
  unfold decimal. simpl Z.to_int. simpl NilZero.string_of_int.
  unfold NilZero.string_of_uint.
  pose proof (DecimalPos.Unsigned.to_uint_nonnil p) as Hnil.
  pose proof (to_uint_head p) as Hhead.
  pose proof (DecimalPos.Unsigned.of_to p) as Hval.
  rewrite DecimalPos.Unsigned.of_uint_alt in Hval.
  destruct (of_lu_rev_cons (Pos.to_uint p)) as [Hlt Hge].
  specialize (Hge Hnil Hhead). rewrite Hval in Hlt, Hge.
  pose proof (usize_length (Pos.to_uint p)) as Hlen.
  replace (match Pos.to_uint p with
           | Nil => "0"
           | _ => NilEmpty.string_of_uint (Pos.to_uint p)
           end) with (NilEmpty.string_of_uint (Pos.to_uint p))
    by (destruct (Pos.to_uint p); [now destruct Hnil|reflexivity..]).
  set (n := String.length (NilEmpty.string_of_uint (Pos.to_uint p))) in *.
  rewrite <- Hlen in Hlt, Hge. clear Hlen.
  assert (Hn : (0 < n)%nat) by (destruct n; [simpl in Hlt; lia|lia]).
  assert (Hlt' : Z.pos p < 10 ^ Z.of_nat n).
  { apply N2Z.inj_lt in Hlt. rewrite N2Z.inj_pow, nat_N_Z in Hlt. exact Hlt. }
  assert (Hge' : 10 ^ (Z.of_nat n - 1) <= Z.pos p).
  { apply N2Z.inj_le in Hge.
    rewrite N2Z.inj_pow, N2Z.inj_pred, nat_N_Z in Hge by lia.
    rewrite <- Z.sub_1_r in Hge. exact Hge. }
  destruct (Z.lt_trichotomy (Z.of_nat n) (k + 1)) as [H|[H|H]];
    [exfalso|exact H|exfalso].
  - assert (10 ^ Z.of_nat n <= 10 ^ k) by (apply Z.pow_le_mono_r; lia). lia.
  - assert (10 ^ (k + 1) <= 10 ^ (Z.of_nat n - 1))
      by (apply Z.pow_le_mono_r; lia). lia.
Qed.

Lemma decade_below (v : Z) :
  1 <= v < 10 ^ 10 ->
  exists k, 0 <= k <= 9 /\ 10 ^ k <= v < 10 ^ (k + 1).
Proof.
  intros [Hlo Hhi].
  destruct (Z_lt_le_dec v (10 ^ 1)); [exists 0; simpl in *; lia|].
  destruct (Z_lt_le_dec v (10 ^ 2)); [exists 1; simpl in *; lia|].
  destruct (Z_lt_le_dec v (10 ^ 3)); [exists 2; simpl in *; lia|].
  destruct (Z_lt_le_dec v (10 ^ 4)); [exists 3; simpl in *; lia|].
  destruct (Z_lt_le_dec v (10 ^ 5)); [exists 4; simpl in *; lia|].
  destruct (Z_lt_le_dec v (10 ^ 6)); [exists 5; simpl in *; lia|].
  destruct (Z_lt_le_dec v (10 ^ 7)); [exists 6; simpl in *; lia|].
  destruct (Z_lt_le_dec v (10 ^ 8)); [exists 7; simpl in *; lia|].
  destruct (Z_lt_le_dec v (10 ^ 9)); [exists 8; simpl in *; lia|].
  exists 9; simpl in *; lia.
Qed.

(** [%d] writes between 1 and 11 characters for an [int]. *)
Lemma decimal_length_int (v : Z) :
  int_range v -> (1 <= String.length (decimal v) <= 11)%nat.
Proof.
  unfold int_range, INT_MIN, INT_MAX. intros Hv.
  destruct v as [|p|p].
  - simpl. lia.
  - destruct (decade_below (Z.pos p)) as (k & Hk & Hd); [simpl in *; lia|].
    pose proof (decimal_length_pos _ k ltac:(lia) Hd). lia.
  - destruct (decade_below (Z.pos p)) as (k & Hk & Hd); [simpl in *; lia|].
    pose proof (decimal_length_pos _ k ltac:(lia) Hd) as H.
    change (decimal (Z.neg p)) with (String "-"%char (decimal (Z.pos p))).
    simpl String.length. lia.
Qed.

Lemma length_append (s t : string) :
  String.length (s ++ t) = (String.length s + String.length t)%nat.
Proof.
  induction s as [|a s IH]; simpl; [reflexivity|]. now rewrite IH.
Qed.

Lemma append_inv_tail (s t u : string) : (s ++ u = t ++ u)%string -> s = t.
Proof.
  revert t. induction s as [|a s IH]; intros [|b t] H.
  - reflexivity.
  - exfalso. apply (f_equal String.length) in H.
    rewrite !length_append in H. simpl in H. lia.
  - exfalso. apply (f_equal String.length) in H.
    rewrite !length_append in H. simpl in H. lia.
  - simpl in H. injection H as -> H. f_equal. auto.
Qed.

(** ** More on [format] *)

(** Text without [%] in front of a format is copied in front of its
    expansion. *)
Lemma format_literal_prefix (pre fmt : string) (args : list Z) :
  occurrences "%"%char pre = O ->
  format (pre ++ fmt) args = outcome_map (String.append pre) (format fmt args).
Proof.
  induction pre as [|c pre IH]; intros H.
  - simpl. now destruct (format fmt args).
  - simpl in H. destruct (Ascii.eqb c "%") eqn:E; [discriminate|].
    change (String c pre ++ fmt)%string with (String c (pre ++ fmt)).
    rewrite format_cons, E, (IH H).
    now destruct (format fmt args).
Qed.

(** A format that takes one argument and no less writes it once, between
    two texts that do not depend on it. *)
Lemma format_one_argument (fmt : string) :
  template_ok fmt 1 = true -> template_ok fmt 0 = false ->
  exists pre post,
    forall v, format fmt (v :: nil) = Returns (pre ++ decimal v ++ post).
Proof.
  induction fmt as [|c|c d s IHs IHd] using format_ind.
  - discriminate.
  - simpl. destruct (Ascii.eqb c "%"); discriminate.
  - rewrite !template_ok_cons.
    destruct (Ascii.eqb_spec c "%") as [->|Hc].
    + destruct (Ascii.eqb_spec d "%") as [->|Hd].
      * intros H1 H0. destruct (IHs H1 H0) as (pre & post & Hf).
        exists (String "%"%char pre), post. intros v.
        rewrite format_cons. simpl. now rewrite Hf.
      * destruct (is_signed_int_conversion d) eqn:Ed; [|discriminate].
        intros H0 _. destruct (format_no_argument s H0) as (txt & Hf & _).
        exists EmptyString, txt. intros v.
        rewrite format_cons. simpl.
        destruct (Ascii.eqb_spec d "%"); [contradiction|].
        rewrite Ed, Hf. reflexivity.
    + intros H1 H0. destruct (IHd H1 H0) as (pre & post & Hf).
      exists (String c pre), post. intros v.
      rewrite format_cons.
      destruct (Ascii.eqb_spec c "%"); [contradiction|]. now rewrite Hf.
Qed.

(** An expansion is at most 9 characters longer than the format for each
    [int] argument. *)
Lemma format_length (fmt : string) :
  forall args txt,
    Forall int_range args ->
    format fmt args = Returns txt ->
    (String.length txt <= String.length fmt + 9 * List.length args)%nat.
Proof.
  induction fmt as [|c|c d s IHs IHd] using format_ind; intros args txt Hargs.
  - simpl. intros [= <-]. simpl. lia.
  - simpl. destruct (Ascii.eqb c "%"); [discriminate|].
    intros [= <-]. simpl. lia.
  - rewrite format_cons.
    destruct (Ascii.eqb c "%").
    + destruct (Ascii.eqb d "%").
      * destruct (format s args) as [t| |] eqn:E; try discriminate.
        simpl. intros [= <-]. specialize (IHs _ _ Hargs E). simpl. lia.
      * destruct (is_signed_int_conversion d).
        { destruct args as [|v args]; [discriminate|].
          destruct (format s args) as [t| |] eqn:E; try discriminate.
          simpl. intros [= <-].
          inversion Hargs as [|? ? Hv Hrest]; subst.
          specialize (IHs _ _ Hrest E).
          pose proof (decimal_length_int v Hv).
          rewrite length_append. simpl. lia. }
        destruct (Ascii.eqb d "c");
          [|destruct (Ascii.eqb d "n"); discriminate].
        destruct args as [|v args]; [discriminate|].
        destruct (format s args) as [t| |] eqn:E; try discriminate.
        simpl. intros [= <-].
        inversion Hargs as [|? ? Hv Hrest]; subst.
        specialize (IHs _ _ Hrest E). simpl. lia.
    + destruct (format (String d s) args) as [t| |] eqn:E; try discriminate.
      simpl. intros [= <-]. specialize (IHd _ _ Hargs E).
      simpl in *. lia.
Qed.

(** ** More on character arrays *)

Lemma c_string_array_holding (s : string) (rest : list ascii) :
  occurrences "000"%char s = O -> c_string (array_holding s rest) = Some s.
Proof.
  unfold array_holding. induction s as [|c s IH]; intros H.
  - reflexivity.
  - simpl in H. simpl.
    destruct (Ascii.eqb c "000") eqn:E; [discriminate|].
    now rewrite (IH H).
Qed.

Lemma observable_printf (fmt : string) (args : list Z) (w : world) :
  observable (printf fmt (List.map Int args) w) =
  outcome_map (fun txt => transmit txt (stdout w)) (format fmt args).
Proof.
  unfold observable. rewrite printf_ints.
  destruct (format fmt args) as [txt| |]; simpl; try reflexivity.
  now destruct (transmit txt (stdout w)).
Qed.

Lemma transmit_accepted (txt : string) (out : string) :
  transmit txt (mkFILE out true) =
  (Z.of_nat (String.length txt), mkFILE (out ++ txt) true).
Proof. reflexivity. Qed.

(** ** Further properties of [MYLOG] *)

(** X1: MYLOG discards the results of its two printf calls: on a standard
    output that refuses the text it writes nothing, reports nothing, and
    returns the value it returns on any other stream. *)
Theorem MYLOG_ignores_output_failure (log10 : double -> double)
    (invalid_int : double -> Z) (param : ptr) (w1 w2 : world)
    (o : MYLOG_interface) :
  heap w1 !! param = Some (LogBlock o) ->
  heap w2 !! param = Some (LogBlock o) ->
  writable (stdout w2) = false ->
  exists r w1',
    MYLOG log10 invalid_int param w1 = Returns (r, w1') /\
    MYLOG log10 invalid_int param w2 = Returns (r, w2).
Proof.
  intros H1 H2 Hw.
  rewrite (MYLOG_run log10 invalid_int param w1 o H1),
          (MYLOG_run log10 invalid_int param w2 o H2).
  rewrite (transmit_refused _ (stdout w2) Hw).
  eexists. eexists. split; [reflexivity|]. now destruct w2.
Qed.

Lemma MYLOG_ignores_output_failure_witness :
  exists r w1',
    MYLOG log10_sample invalid_int_x86 1%positive
      (world_of (log_block 1000) stdout0) = Returns (r, w1') /\
    MYLOG log10_sample invalid_int_x86 1%positive
      (world_of (log_block 1000) (mkFILE "kept" false)) =
    Returns (r, world_of (log_block 1000) (mkFILE "kept" false)).
Proof.
  apply (MYLOG_ignores_output_failure log10_sample invalid_int_x86 1%positive
           (world_of (log_block 1000) stdout0)
           (world_of (log_block 1000) (mkFILE "kept" false))
           (mkMYLOG_interface 1000)); reflexivity.
Defined.

(** X2: the two conversions around log10 lose nothing: every int becomes
    a finite double of the same value, and casting that double back to
    int gives the int again. *)
Theorem int_double_round_trip (invalid_int : double -> Z) (v : Z) :
  int_range v ->
  is_finite (double_of_int v) = true /\
  SF2R (double_of_int v) = IZR v /\
  int_of_double invalid_int (double_of_int v) = v.
Proof.
  intros Hv. pose proof Hv as [Hlo Hhi]. unfold INT_MIN, INT_MAX in Hlo, Hhi.
  assert (Hb : Z.abs v < 2 ^ 53)
    by (apply Z.le_lt_trans with (2 ^ 31); [lia|reflexivity]).
  split; [|split; [now apply SF2R_double_of_int|]].
  - destruct (Z.eq_dec v 0) as [->|Hnz]; [reflexivity|].
    now destruct (double_of_int_finite v Hnz Hb) as (m & e & -> & _).
  - assert (Hin : in_int_range v = true).
    { unfold in_int_range, INT_MIN, INT_MAX.
      apply andb_true_intro. split; apply Z.leb_le; lia. }
    destruct (Z.eq_dec v 0) as [->|Hnz]; [reflexivity|].
    destruct (double_of_int_finite v Hnz Hb) as (m & e & -> & He & Hm).
    unfold int_of_double, truncate.
    assert (Hp : 0 < 2 ^ (- e)) by (apply Z.pow_pos_nonneg; lia).
    assert (Ha : (if 0 <=? e then Z.pos m * 2 ^ e else Z.pos m / 2 ^ (- e))
                 = Z.abs v).
    { rewrite Hm. destruct (Z.leb_spec 0 e).
      - replace e with 0 by lia. simpl. lia.
      - apply Z.div_mul. lia. }
    rewrite Ha.
    replace (if v <? 0 then - Z.abs v else Z.abs v) with v
      by (destruct (Z.ltb_spec v 0); lia).
    now rewrite Hin.
Qed.

Lemma int_double_round_trip_witness :
  is_finite (double_of_int INT_MIN) = true /\
  SF2R (double_of_int INT_MIN) = IZR INT_MIN /\
  int_of_double invalid_int_x86 (double_of_int INT_MIN) = INT_MIN.
Proof.
  apply (int_double_round_trip invalid_int_x86 INT_MIN).
  unfold int_range, INT_MIN, INT_MAX. simpl. lia.
Defined.

(** X3: with a faithful libm MYLOG is monotone on the positive ints, and
    its result lies between 0 and 9. *)
Theorem MYLOG_monotone (log10 : double -> double) (invalid_int : double -> Z)
    (p1 p2 : ptr) (w : world) (o1 o2 : MYLOG_interface) :
  heap w !! p1 = Some (LogBlock o1) ->
  heap w !! p2 = Some (LogBlock o2) ->
  1 <= x o1 -> x o1 <= x o2 -> x o2 <= INT_MAX ->
  faithful_at log10 (double_of_int (x o1)) ->
  faithful_at log10 (double_of_int (x o2)) ->
  exists r1 r2 w1 w2,
    MYLOG log10 invalid_int p1 w = Returns (r1, w1) /\
    MYLOG log10 invalid_int p2 w = Returns (r2, w2) /\
    0 <= r1 /\ r1 <= r2 /\ r2 <= 9.
Proof.
  intros H1 H2 Hlo Hle Hhi F1 F2.
  destruct (decade_exists (x o1) ltac:(lia)) as (k1 & Hk1 & Hd1).
  destruct (decade_exists (x o2) ltac:(lia)) as (k2 & Hk2 & Hd2).
  destruct (int_of_double_log10 log10 invalid_int (x o1) k1
              ltac:(lia) Hk1 Hd1 F1) as [R1 _].
  destruct (int_of_double_log10 log10 invalid_int (x o2) k2
              ltac:(lia) Hk2 Hd2 F2) as [R2 _].
  rewrite (MYLOG_run log10 invalid_int p1 w o1 H1),
          (MYLOG_run log10 invalid_int p2 w o2 H2).
  unfold log_result. rewrite R1, R2.
  do 4 eexists. split; [reflexivity|]. split; [reflexivity|].
  split; [lia|]. split; [|lia].
  destruct (Z_lt_le_dec k2 k1) as [Hlt|]; [exfalso|assumption].
  assert (10 ^ (k2 + 1) <= 10 ^ k1) by (apply Z.pow_le_mono_r; lia). lia.
Qed.

Lemma log10_sample_faithful_100 :
  faithful_at log10_sample (double_of_int 100).
Proof.
  assert (Hx : SF2R (double_of_int 100) = IZR (10 ^ 2))
    by (apply SF2R_double_of_int; reflexivity).
  assert (Hy : SF2R (log10_sample (double_of_int 100)) = 2%R).
  { change (log10_sample (double_of_int 100)) with (double_of_int 2).
    apply SF2R_double_of_int. reflexivity. }
  split; [reflexivity|]. rewrite Hx, Hy, log10R_pow10 by lia.
  split.
  - intros n Hn. exact Hn.
  - replace (2 - 2)%R with 0%R by ring. rewrite Rabs_R0.
    apply Rlt_le, Rinv_0_lt_compat, IZR_lt. reflexivity.
Qed.

Lemma MYLOG_monotone_witness :
  let w := mkWorld (<[ 2%positive := log_block 1000 ]>
                      {[ 1%positive := log_block 100 ]}) stdout0 in
  exists r1 r2 w1 w2,
    MYLOG log10_sample invalid_int_x86 1%positive w = Returns (r1, w1) /\
    MYLOG log10_sample invalid_int_x86 2%positive w = Returns (r2, w2) /\
    0 <= r1 /\ r1 <= r2 /\ r2 <= 9.
Proof.
  intros w.
  apply (MYLOG_monotone log10_sample invalid_int_x86 1%positive 2%positive w
           (mkMYLOG_interface 100) (mkMYLOG_interface 1000)).
  - reflexivity.
  - reflexivity.
  - simpl. lia.
  - simpl. lia.
  - unfold INT_MAX. simpl. lia.
  - exact log10_sample_faithful_100.
  - exact log10_sample_faithful_1000.
Defined.

(** X4: with a faithful libm, the result MYLOG prints on its second line
    is one less than the number of digits of the operand it echoes on its
    first line. *)
Theorem MYLOG_counts_digits (log10 : double -> double)
    (invalid_int : double -> Z) (param : ptr) (w : world)
    (o : MYLOG_interface) :
  heap w !! param = Some (LogBlock o) ->
  1 <= x o <= INT_MAX ->
  faithful_at log10 (double_of_int (x o)) ->
  exists r w',
    MYLOG log10 invalid_int param w = Returns (r, w') /\
    Z.of_nat (String.length (decimal (x o))) = r + 1.
Proof.
  intros Hp Hv Hlibm.
  destruct (decade_exists (x o) Hv) as (k & Hk & Hd).
  destruct (int_of_double_log10 log10 invalid_int (x o) k Hv Hk Hd Hlibm)
    as [Hres _].
  rewrite (MYLOG_run log10 invalid_int param w o Hp).
  unfold log_result at 1. rewrite Hres.
  eexists. eexists. split; [reflexivity|].
  apply decimal_length_pos; [lia|exact Hd].
Qed.

Lemma MYLOG_counts_digits_witness :
  exists r w',
    MYLOG log10_sample invalid_int_x86 1%positive
      (world_of (log_block 1000) stdout0) = Returns (r, w') /\
    Z.of_nat (String.length (decimal 1000)) = r + 1.
Proof.
  apply (MYLOG_counts_digits log10_sample invalid_int_x86 1%positive
           (world_of (log_block 1000) stdout0) (mkMYLOG_interface 1000)).
  - reflexivity.
  - unfold INT_MAX. simpl. lia.
  - exact log10_sample_faithful_1000.
Defined.

(** X5: when the platform's conversion yields ints, MYLOG returns an int
    for every int operand and writes at most 51 characters. *)
Theorem MYLOG_output_bounded (log10 : double -> double)
    (invalid_int : double -> Z) (param : ptr) (w : world)
    (o : MYLOG_interface) :
  (forall d, int_range (invalid_int d)) ->
  heap w !! param = Some (LogBlock o) ->
  int_range (x o) ->
  exists r w' txt,
    MYLOG log10 invalid_int param w = Returns (r, w') /\
    int_range r /\
    appended w w' txt /\
    (String.length txt <= 51)%nat.
Proof.
  intros Hinv Hp Hx.
  assert (Hr : int_range (log_result log10 invalid_int (x o))).
  { unfold log_result, int_of_double.
    destruct (truncate (log10 (double_of_int (x o)))) as [v|]; [|apply Hinv].
    destruct (in_int_range v) eqn:E; [|apply Hinv].
    unfold in_int_range in E. apply andb_prop in E as [E1 E2].
    apply Z.leb_le in E1, E2. split; assumption. }
  rewrite (MYLOG_run log10 invalid_int param w o Hp).
  do 3 eexists. split; [reflexivity|]. split; [exact Hr|].
  split; [apply appended_transmit|].
  pose proof (decimal_length_int _ Hx).
  pose proof (decimal_length_int _ Hr).
  destruct (writable (stdout w)); [|simpl; lia].
  unfold log_trace. rewrite !length_append. simpl. lia.
Qed.

Lemma MYLOG_output_bounded_witness :
  exists r w' txt,
    MYLOG log10_sample invalid_int_x86 1%positive
      (world_of (log_block INT_MIN) stdout0) = Returns (r, w') /\
    int_range r /\
    appended (world_of (log_block INT_MIN) stdout0) w' txt /\
    (String.length txt <= 51)%nat.
Proof.
  apply (MYLOG_output_bounded log10_sample invalid_int_x86 1%positive
           (world_of (log_block INT_MIN) stdout0)
           (mkMYLOG_interface INT_MIN)).
  - intros d. unfold invalid_int_x86, int_range, INT_MIN, INT_MAX. simpl. lia.
  - reflexivity.
  - unfold int_range, INT_MIN, INT_MAX. simpl. lia.
Defined.

(** ** Further properties of [MYPRINTF] *)

(** X6: for a template made of a text, one %d and a text, both texts
    without %, MYPRINTF writes the first text, the value in decimal and
    the second text, and returns the length of what it wrote. *)
Theorem MYPRINTF_substitutes (param : ptr) (h : gmap ptr object)
    (o : MYPRINTF_interface) (out pre post : string) :
  h !! param = Some (PrintfBlock o) ->
  c_string (text o) = Some (pre ++ "%d" ++ post) ->
  occurrences "%"%char pre = O ->
  occurrences "%"%char post = O ->
  MYPRINTF param (mkWorld h (mkFILE out true)) =
  Returns (Z.of_nat (String.length pre + String.length (decimal (value o))
                     + String.length post),
           mkWorld h (mkFILE (out ++ pre ++ decimal (value o) ++ post) true)).
Proof.
  intros Hp Hs Hpre Hpost.
  rewrite (MYPRINTF_run param (mkWorld h (mkFILE out true)) o _ Hp Hs).
  rewrite (printf_run _ _ (pre ++ decimal (value o) ++ post)).
  - cbn [stdout heap]. rewrite transmit_accepted. cbn [fst snd].
    rewrite !length_append, Nat.add_assoc. reflexivity.
  - rewrite (format_literal_prefix pre _ _ Hpre).
    change ("%d" ++ post)%string with (String "%" (String "d" post)).
    rewrite format_cons. simpl.
    now rewrite (format_verbatim post nil Hpost).
Qed.

Lemma MYPRINTF_substitutes_witness :
  MYPRINTF 1%positive
    (world_of (printf_block "t = %d ms" (-12)) (mkFILE "log: " true)) =
  Returns (10, world_of (printf_block "t = %d ms" (-12))
                        (mkFILE "log: t = -12 ms" true)).
Proof.
  apply (MYPRINTF_substitutes 1%positive
           {[ 1%positive := printf_block "t = %d ms" (-12) ]}
           (mkMYPRINTF_interface (text_of_string "t = %d ms") (-12))
           "log: " "t = " " ms"); reflexivity.
Defined.

(** X7: when the template holds a %d or %i, the text MYPRINTF writes
    determines the value: two calls with the same template and different
    values write different texts. *)
Theorem MYPRINTF_value_visible (p1 p2 : ptr) (w1 w2 : world)
    (o1 o2 : MYPRINTF_interface) (fmt : string) :
  heap w1 !! p1 = Some (PrintfBlock o1) ->
  heap w2 !! p2 = Some (PrintfBlock o2) ->
  c_string (text o1) = Some fmt ->
  c_string (text o2) = Some fmt ->
  template_ok fmt 1 = true ->
  template_ok fmt 0 = false ->
  stdout w1 = stdout w2 ->
  writable (stdout w1) = true ->
  value o1 <> value o2 ->
  exists r1 r2 f1 f2,
    MYPRINTF p1 w1 = Returns (r1, mkWorld (heap w1) f1) /\
    MYPRINTF p2 w2 = Returns (r2, mkWorld (heap w2) f2) /\
    sent f1 <> sent f2.
Proof.
  intros H1 H2 S1 S2 Hok Hdir Hout Hw Hne.
  destruct (format_one_argument fmt Hok Hdir) as (pre & post & Hf).
  rewrite (MYPRINTF_run p1 w1 o1 fmt H1 S1), (MYPRINTF_run p2 w2 o2 fmt H2 S2).
  rewrite (printf_run _ _ _ w1 (Hf (value o1))),
          (printf_run _ _ _ w2 (Hf (value o2))).
  do 4 eexists. split; [reflexivity|]. split; [reflexivity|].
  rewrite !transmit_effect, <- Hout, Hw. intros E.
  apply append_inv_head, append_inv_head in E.
  apply append_inv_tail, decimal_inj in E. contradiction.
Qed.

Lemma MYPRINTF_value_visible_witness :
  exists r1 r2 f1 f2,
    MYPRINTF 1%positive (world_of (printf_block "%d%%" 5) stdout0) =
      Returns (r1, mkWorld {[ 1%positive := printf_block "%d%%" 5 ]} f1) /\
    MYPRINTF 1%positive (world_of (printf_block "%d%%" 50) stdout0) =
      Returns (r2, mkWorld {[ 1%positive := printf_block "%d%%" 50 ]} f2) /\
    sent f1 <> sent f2.
Proof.
  apply (MYPRINTF_value_visible 1%positive 1%positive
           (world_of (printf_block "%d%%" 5) stdout0)
           (world_of (printf_block "%d%%" 50) stdout0)
           (mkMYPRINTF_interface (text_of_string "%d%%") 5)
           (mkMYPRINTF_interface (text_of_string "%d%%") 50) "%d%%");
    try reflexivity.
  simpl. lia.
Defined.

(** X8: MYPRINTF reads its text array up to the first null character
    only: two blocks that hold the same string and the same value give the
    same return value and the same output whatever the array elements
    after the terminator are. *)
Theorem MYPRINTF_ignores_after_terminator (p1 p2 : ptr) (w1 w2 : world)
    (o1 o2 : MYPRINTF_interface) (s : string) (rest1 rest2 : list ascii) :
  heap w1 !! p1 = Some (PrintfBlock o1) ->
  heap w2 !! p2 = Some (PrintfBlock o2) ->
  text o1 = array_holding s rest1 ->
  text o2 = array_holding s rest2 ->
  occurrences "000"%char s = O ->
  value o1 = value o2 ->
  stdout w1 = stdout w2 ->
  observable (MYPRINTF p1 w1) = observable (MYPRINTF p2 w2) /\
  observable (MYPRINTF p1 w1) =
  outcome_map (fun txt => transmit txt (stdout w1))
              (format s (value o1 :: nil)).
Proof.
  intros H1 H2 T1 T2 Hs Hv Hout.
  assert (S1 : c_string (text o1) = Some s)
    by (rewrite T1; now apply c_string_array_holding).
  assert (S2 : c_string (text o2) = Some s)
    by (rewrite T2; now apply c_string_array_holding).
  rewrite (MYPRINTF_run p1 w1 o1 s H1 S1), (MYPRINTF_run p2 w2 o2 s H2 S2).
  rewrite !observable_printf, Hv, Hout. split; reflexivity.
Qed.

Lemma MYPRINTF_ignores_after_terminator_witness :
  let o1 := mkMYPRINTF_interface (array_holding "n=%d" nil) 3 in
  let o2 := mkMYPRINTF_interface
              (array_holding "n=%d" (list_ascii_of_string "%s%n left over")) 3 in
  observable (MYPRINTF 1%positive (world_of (PrintfBlock o1) stdout0)) =
  observable (MYPRINTF 1%positive (world_of (PrintfBlock o2) stdout0)) /\
  observable (MYPRINTF 1%positive (world_of (PrintfBlock o1) stdout0)) =
  outcome_map (fun txt => transmit txt stdout0) (format "n=%d" (3 :: nil)).
Proof.
  intros o1 o2.
  apply (MYPRINTF_ignores_after_terminator 1%positive 1%positive
           (world_of (PrintfBlock o1) stdout0)
           (world_of (PrintfBlock o2) stdout0) o1 o2 "n=%d"
           nil (list_ascii_of_string "%s%n left over")); reflexivity.
Defined.

(** X9: a template whose only directives are %% takes no argument:
    MYPRINTF writes and returns the same for every value, and the count
    it returns is the length of the template less one for each pair
    %%. *)
Theorem MYPRINTF_escapes_only (p1 p2 : ptr) (w1 w2 : world)
    (o1 o2 : MYPRINTF_interface) (fmt : string) :
  heap w1 !! p1 = Some (PrintfBlock o1) ->
  heap w2 !! p2 = Some (PrintfBlock o2) ->
  c_string (text o1) = Some fmt ->
  c_string (text o2) = Some fmt ->
  template_ok fmt 0 = true ->
  stdout w1 = stdout w2 ->
  exists (r : Z) (f : FILE),
    MYPRINTF p1 w1 = Returns (r, mkWorld (heap w1) f) /\
    MYPRINTF p2 w2 = Returns (r, mkWorld (heap w2) f) /\
    (writable (stdout w1) = true ->
     2 * r + Z.of_nat (occurrences "%"%char fmt)
     = 2 * Z.of_nat (String.length fmt)).
Proof.
  intros H1 H2 S1 S2 Hok Hout.
  destruct (format_no_argument fmt Hok) as (txt & Hf & Hlen).
  rewrite (MYPRINTF_run p1 w1 o1 fmt H1 S1), (MYPRINTF_run p2 w2 o2 fmt H2 S2).
  rewrite (printf_run _ _ txt w1 (Hf _)), (printf_run _ _ txt w2 (Hf _)).
  rewrite <- Hout. do 2 eexists.
  split; [reflexivity|]. split; [reflexivity|].
  intros Hw. rewrite transmit_result, Hw. lia.
Qed.

Lemma MYPRINTF_escapes_only_witness :
  exists (r : Z) (f : FILE),
    MYPRINTF 1%positive (world_of (printf_block "100%% sure" 1) stdout0) =
      Returns (r, mkWorld {[ 1%positive := printf_block "100%% sure" 1 ]} f) /\
    MYPRINTF 1%positive (world_of (printf_block "100%% sure" 2) stdout0) =
      Returns (r, mkWorld {[ 1%positive := printf_block "100%% sure" 2 ]} f) /\
    (true = true -> 2 * r + 2 = 2 * 10).
Proof.
  apply (MYPRINTF_escapes_only 1%positive 1%positive
           (world_of (printf_block "100%% sure" 1) stdout0)
           (world_of (printf_block "100%% sure" 2) stdout0)
           (mkMYPRINTF_interface (text_of_string "100%% sure") 1)
           (mkMYPRINTF_interface (text_of_string "100%% sure") 2)
           "100%% sure"); reflexivity.
Defined.

(** X10: for a well-formed block (array of 81 elements, int value) whose
    template is made of ordinary characters, %% and at most one %d or %i,
    MYPRINTF returns EOF or a count between 0 and 89. *)
Theorem MYPRINTF_count_bound (param : ptr) (w : world)
    (o : MYPRINTF_interface) (fmt : string) :
  heap w !! param = Some (PrintfBlock o) ->
  MYPRINTF_interface_wf o ->
  c_string (text o) = Some fmt ->
  template_ok fmt 1 = true ->
  exists r w',
    MYPRINTF param w = Returns (r, w') /\
    (r = EOF \/ 0 <= r <= 89).
Proof.
  intros Hp [Hlen Hval] Hs Hok.
  destruct (format_defined fmt (value o :: nil) Hok) as [txt Hf].
  rewrite (MYPRINTF_run param w o fmt Hp Hs), (printf_run _ _ txt w Hf).
  do 2 eexists. split; [reflexivity|].
  rewrite transmit_result.
  apply c_string_length in Hs. rewrite Hlen in Hs. unfold TEXT_CAPACITY in Hs.
  apply format_length in Hf; [|constructor; [exact Hval|constructor]].
  simpl in Hf.
  destruct (writable (stdout w)); [right; lia|].
  destruct txt; [right; lia|now left].
Qed.

Lemma MYPRINTF_count_bound_witness :
  let s := (string_of_list_ascii (List.repeat "a"%char 78) ++ "%d")%string in
  exists r w',
    MYPRINTF 1%positive (world_of (printf_block s INT_MIN) stdout0)
    = Returns (r, w') /\
    (r = EOF \/ 0 <= r <= 89).
Proof.
  intros s.
  apply (MYPRINTF_count_bound 1%positive
           (world_of (printf_block s INT_MIN) stdout0)
           (mkMYPRINTF_interface (text_of_string s) INT_MIN) s).
  - reflexivity.
  - split; [reflexivity|]. unfold int_range, INT_MIN, INT_MAX. simpl. lia.
  - reflexivity.
  - reflexivity.
Defined.

(** The bound is reached: 78 characters and a %d, with the value INT_MIN. *)
Example MYPRINTF_count_of_89 :
  let s := (string_of_list_ascii (List.repeat "a"%char 78) ++ "%d")%string in
  MYPRINTF 1%positive (world_of (printf_block s INT_MIN) stdout0) =
  Returns (89, world_of (printf_block s INT_MIN)
                 (mkFILE (string_of_list_ascii (List.repeat "a"%char 78)
                            ++ "-2147483648") true)).
Proof. reflexivity. Qed.

(** X11: MYPRINTF passes one value and never counts the directives: a
    template that is well formed for n arguments but needs more than one
    makes the call undefined. *)
Theorem MYPRINTF_too_many_directives (param : ptr) (w : world)
    (o : MYPRINTF_interface) (fmt : string) (n : nat) :
  heap w !! param = Some (PrintfBlock o) ->
  c_string (text o) = Some fmt ->
  template_ok fmt n = true ->
  template_ok fmt 1 = false ->
  MYPRINTF param w = Undefined.
Proof.
  intros Hp Hs Hn H1.
  rewrite (MYPRINTF_run param w o fmt Hp Hs), printf_ints.
  now rewrite (format_runs_out fmt n (value o :: nil) Hn H1).
Qed.

Lemma MYPRINTF_too_many_directives_witness :
  MYPRINTF 1%positive (world_of (printf_block "%d/%i/%d" 7) stdout0)
  = Undefined.
Proof.
  apply (MYPRINTF_too_many_directives 1%positive
           (world_of (printf_block "%d/%i/%d" 7) stdout0)
           (mkMYPRINTF_interface (text_of_string "%d/%i/%d") 7)
           "%d/%i/%d" 3); reflexivity.
Defined.
